(** * ForumMediaAnalyzer: the duplicate-detection and synchronization engine

    A shallow embedding of [ForumMediaAnalyzer/MediaAnalyzer.py].  The Python
    of [MediaAnalyzer] is transcribed function by function; calls into the
    libraries it imports (requests, pymongo/gridfs, cv2, skimage, imagehash,
    base64) appear either as small executable models of the behaviour the
    code relies on (NumPy indexing, broadcasting and truth values, the
    Hamming distance of two image hashes) or as fields of the record [Lib]
    (image decoding, resizing, structural similarity, the hash function).

    Python floats are IEEE binary64 numbers and are modelled by Rocq's
    primitive floats; Python ints are unbounded and are modelled by [Z]. *)

From Stdlib Require Import String Ascii ZArith List Bool Lia Floats Uint63.
From Stdlib.Strings Require Import Byte.
Import ListNotations.
Local Open Scope Z_scope.

(** ** Exceptions and results *)

(** The exception classes that can travel through [run].  The three first
    ones are those named by the [except] clauses of [run]; a subclass caught
    by the same clause (for instance [requests.exceptions.HTTPError]) is
    folded into its base class. *)
Inductive exn : Type :=
| RequestException
| ServerSelectionTimeoutError
| JSONDecodeError
| ValueError
| AttributeError
| KeyError
| IndexError
| TypeError
| OverflowError
| BinasciiError
| NoFile
| CvError
| AnalyzeConditionsNotMetException (message : exn).

Inductive res (A : Type) : Type :=
| Ok (a : A)
| Raise (e : exn).
Arguments Ok {A} a.
Arguments Raise {A} e.

Definition rbind {A B : Type} (r : res A) (k : A -> res B) : res B :=
  match r with
  | Ok a => k a
  | Raise e => Raise e
  end.

Notation "'let?' x ':=' r 'in' k" := (rbind r (fun x => k))
  (at level 10, x pattern, r at level 100, k at level 200).

Definition of_option {A : Type} (e : exn) (o : option A) : res A :=
  match o with
  | Some a => Ok a
  | None => Raise e
  end.

Fixpoint sequence {A : Type} (l : list (res A)) : res (list A) :=
  match l with
  | [] => Ok []
  | r :: rs => let? a := r in let? tl := sequence rs in Ok (a :: tl)
  end.

(** ** NumPy arrays *)

(** A decoded grayscale image: a two-dimensional [uint8] array, row by row. *)
Definition ndarray : Type := list (list Z).

Definition shape (a : ndarray) : nat * nat :=
  (length a, match a with [] => 0%nat | r :: _ => length r end).

Definition size (a : ndarray) : nat := length (concat a).

Definition shape_eqb (s t : nat * nat) : bool :=
  Nat.eqb (fst s) (fst t) && Nat.eqb (snd s) (snd t).

(** [a[i]], the [i]-th row; NumPy raises [IndexError] out of range. *)
Definition getitem (a : ndarray) (i : nat) : res (list Z) :=
  of_option IndexError (nth_error a i).

Fixpoint map2 {A B C : Type} (f : A -> B -> C) (x : list A) (y : list B) : list C :=
  match x, y with
  | a :: x', b :: y' => f a b :: map2 f x' y'
  | _, _ => []
  end.

(** An element-wise binary operation on one-dimensional arrays, with NumPy's
    broadcasting rule: equal lengths, or one operand of length one;
    anything else is the [ValueError] "operands could not be broadcast
    together". *)
Definition broadcast {A B C : Type} (f : A -> B -> C) (x : list A) (y : list B)
  : res (list C) :=
  if Nat.eqb (length x) (length y) then Ok (map2 f x y)
  else match x, y with
       | [a], _ => Ok (map (f a) y)
       | _, [b] => Ok (map (fun a => f a b) x)
       | _, _ => Raise ValueError
       end.

(** The same on two-dimensional arrays: both axes broadcast. *)
Definition broadcast2 {C : Type} (f : Z -> Z -> C) (a b : ndarray)
  : res (list (list C)) :=
  let? rows := broadcast (fun r s => broadcast f r s) a b in sequence rows.

(** [bool(arr)] for a boolean array given flat: the element of a one-element
    array, [ValueError] ("the truth value of an array with more than one
    element is ambiguous") beyond, and [False] for an empty array (with a
    deprecation warning in the NumPy releases the program was written for). *)
Definition truth (b : list bool) : res bool :=
  match b with
  | [] => Ok false
  | [x] => Ok x
  | _ :: _ :: _ => Raise ValueError
  end.

(** [bool(im)] for an image array: elements are true when non-zero. *)
Definition array_truth (a : ndarray) : res bool :=
  truth (map (fun z => negb (z =? 0)) (concat a)).

(** [uint8] to [float64] ([astype("float")], and the operand conversion of
    true division). *)
Definition to_float (z : Z) : float := PrimFloat.of_uint63 (Uint63.of_Z z).

(** [uint8 / uint8]: NumPy's true division yields [float64], with the IEEE
    results (inf, nan) for a zero divisor. *)
Definition true_divide (x y : Z) : float := PrimFloat.div (to_float x) (to_float y).

(** [uint8 + uint8] stays [uint8] and wraps around. *)
Definition add_uint8 (x y : Z) : Z := (x + y) mod 256.

(** The builtin [sum] over the rows of a two-dimensional array: it starts
    from the int [0] (a scalar, which broadcasts like a one-element array)
    and adds the rows one by one. *)
Definition sum_rows (rows : list (list Z)) : res (list Z) :=
  fold_left (fun acc r => let? s := acc in broadcast add_uint8 s r) rows (Ok [0]).

(** ** Library primitives *)

Record Lib : Type := {
  (** [base64.b64decode(s.encode('utf-8'))]; [None] stands for [binascii.Error] *)
  b64decode : string -> option (list byte);
  (** [cv2.imdecode(buff, cv2.IMREAD_GRAYSCALE)]: the image, the Python
      [None] for data that is no image, and [cv2.error] when the call itself
      fails (an empty buffer) *)
  imdecode : list byte -> res (option ndarray);
  (** [cv2.resize(src, dsize=(width, height), interpolation=cv2.INTER_CUBIC)] *)
  resize : ndarray -> nat * nat -> ndarray;
  (** [skimage.metrics.structural_similarity(im1, im2)] *)
  structural_similarity : ndarray -> ndarray -> res float;
  (** [imagehash.average_hash(Image.fromarray(a))], its bit array flattened *)
  average_hash : ndarray -> list bool
}.

(** The contract of [cv2.resize]: the result has the requested dimensions
    ([dsize] is width first, [shape] is height first). *)
Definition resize_contract (L : Lib) : Prop :=
  forall src w h, shape (resize L src (w, h)) = (h, w).

(** ** The static helpers of [MediaAnalyzer] *)

(** The binary64 value of the Python literal [0.02]. *)
Definition scale_percent_dif_default : float := 0x1.47ae147ae147bp-6%float.

(** [obj.shape]: [None] has no such attribute. *)
Definition attr_shape (o : option ndarray) : res (nat * nat) :=
  match o with
  | Some a => Ok (shape a)
  | None => Raise AttributeError
  end.

(** [_scale_images(image_one, image_two, scale_percent_dif)].  The arguments
    are Python objects: an array or [None]. *)
Definition _scale_images (L : Lib) (image_one image_two : option ndarray)
    (scale_percent_dif : float) : res (option ndarray * option ndarray) :=
  let? s1 := attr_shape image_one in
  let? s2 := attr_shape image_two in
  if shape_eqb s1 s2 then Ok (image_one, image_two)
  else
    match image_one, image_two with
    | Some a1, Some a2 =>
        (* abs((image_one[0] / image_one[1]) - (image_two[0] / image_two[1])) *)
        let? r0 := getitem a1 0 in
        let? r1 := getitem a1 1 in
        let? q1 := broadcast true_divide r0 r1 in
        let? t0 := getitem a2 0 in
        let? t1 := getitem a2 1 in
        let? q2 := broadcast true_divide t0 t1 in
        let? d := broadcast PrimFloat.sub q1 q2 in
        let? too_far :=
          truth (map (fun x => PrimFloat.leb scale_percent_dif (PrimFloat.abs x)) d) in
        if too_far then Ok (None, None)
        else
          (* sum(image_one[:2]) > sum(image_two[:2]) *)
          let? u1 := sum_rows (firstn 2 a1) in
          let? u2 := sum_rows (firstn 2 a2) in
          let? g := broadcast (fun x y => y <? x) u1 u2 in
          let? bigger := truth g in
          if bigger
          then Ok (Some (resize L a1 (snd (shape a2), fst (shape a2))), Some a2)
          else Ok (Some a1, Some (resize L a2 (snd (shape a1), fst (shape a1))))
    | _, _ => Raise AttributeError
    end.

(** [_mse(image_one, image_two)].  [np.sum] adds the squared differences;
    they are integers below 2^16, so every partial sum is exact in binary64
    whatever the order of the additions, for any image of fewer than 2^37
    pixels. *)
Definition _mse (image_one image_two : ndarray) : res float :=
  let? sq := broadcast2
               (fun x y => let d := PrimFloat.sub (to_float x) (to_float y) in
                           PrimFloat.mul d d)
               image_one image_two in
  let err := fold_left PrimFloat.add (concat sq) 0%float in
  Ok (PrimFloat.div err
        (to_float (Z.of_nat (fst (shape image_one)) * Z.of_nat (snd (shape image_one))))).

(** [h1 - h2] on two [ImageHash] objects: the number of differing bits, and
    a [TypeError] when the hashes have different shapes. *)
Definition hash_sub (h1 h2 : list bool) : res Z :=
  if Nat.eqb (length h1) (length h2)
  then Ok (Z.of_nat (length (filter (fun p => xorb (fst p) (snd p)) (combine h1 h2))))
  else Raise TypeError.

(** [float(v)] for a Python int [v], given as the integer that the resulting
    binary64 number denotes: [v] itself up to 53 significant bits, otherwise
    [v] rounded to 53 bits, ties to even; [OverflowError] beyond the range. *)
Definition binary64_of_int (v : Z) : res Z :=
  let m := Z.abs v in
  let bits := Z.log2 m + 1 in
  if bits <=? 53 then Ok v
  else
    let sh := bits - 53 in
    let q := Z.shiftr m sh in
    let r := m mod 2 ^ sh in
    let half := 2 ^ (sh - 1) in
    let q' := if (half <? r) || ((r =? half) && Z.odd q) then q + 1 else q in
    let rounded := q' * 2 ^ sh in
    if 2 ^ 1024 <=? rounded then Raise OverflowError
    else Ok (Z.sgn v * rounded).

(** [int((abs(s) + s) / 2)] for a Python int [s].  The numerator is even, so
    the quotient of the (correctly rounded) true division is the integer
    [(abs(s) + s) / 2] rounded to binary64, which [int] converts back
    without loss. *)
Definition int_of_half_sum (s : Z) : res Z :=
  binary64_of_int ((Z.abs s + s) / 2).

Definition cutoff_default : Z := 10.

(** [_img_hash(image_one, image_two, func=imagehash.average_hash, cutoff)]. *)
Definition _img_hash (L : Lib) (image_one image_two : ndarray) (cutoff : Z) : res Z :=
  let h1 := average_hash L image_one in
  let h2 := average_hash L image_two in
  let? d := hash_sub h1 h2 in
  let s := d - cutoff in
  int_of_half_sum s.

(** ** The upstream scraper service *)

(** One post of an upstream document: [post['ArticleId']] and
    [post['MediaData']] (the image, base64 text), both JSON strings, on
    which [str] is the identity.  The text is given by its UTF-8 bytes: a
    JSON string that UTF-8 cannot encode (a lone surrogate), on which
    [s.encode('utf-8')] raises, is outside this type. *)
Record post : Type := {
  ArticleId : string;
  MediaData : string
}.

(** One upstream document: [doc['StartPostId']] and [doc['Posts']]. *)
Record document : Type := {
  StartPostId : string;
  Posts : list post
}.

(** What a GET on [/query] can lead to: [requests.get] raises, the status is
    not a success ([raise_for_status] raises), the body is not JSON
    ([resp.json()] raises), or the payload with its [documents]. *)
Inductive response : Type :=
| ConnectionFailed
| HttpError
| BadJson
| Json (documents : list document).

(** ** The MongoDB database [9GagMedia] *)

Definition oid : Type := nat.

(** One entry of a [Reposts] list. *)
Record evidence : Type := {
  ev_ArticleId : string;
  ev_mse : float;
  ev_ssim : float;
  ev_hs : Z;
  ev_certainty : Z
}.

(** The dictionary [md] that [run] builds for a post.  A key that only one
    of the two paths writes is an [option]: ["OrderNum"] and ["Media"] are
    written by the save-all path, ["MediaId"] by the detection path. *)
Record fields : Type := {
  md_ArticleId : string;
  md_OrderNum : option Z;
  md_RunId : oid;
  md_PostProcessedTime : Z;
  md_Dim : nat * nat;
  md_Media : option oid;
  md_MediaId : option oid;
  md_IsOriginal : bool;
  md_RepostOff : option oid;
  md_Reposts : option (list evidence)
}.

(** A document of the collection [Posts]: [md] with the [_id] it got. *)
Record post_doc : Type := {
  _id : oid;
  body : fields
}.

(** A document of the collection [Runs]. *)
Record run_doc : Type := {
  run_id : oid;
  StartProcessTime : Z;
  EndProcessTime : option Z;
  PostsProcessed : Z;
  BatchesProcessed : Z
}.

Record db : Type := {
  db_Posts : list post_doc;
  db_Runs : list run_doc;
  (** the [val] of the single document of [Counter], when there is one *)
  db_Counter : option Z;
  (** GridFS: the stored files by id *)
  db_fs : list (oid * list byte);
  (** the next fresh ObjectId *)
  db_next : oid
}.

Definition set_Posts (s : db) (l : list post_doc) : db :=
  {| db_Posts := l; db_Runs := db_Runs s; db_Counter := db_Counter s;
     db_fs := db_fs s; db_next := db_next s |}.

Definition set_Counter (s : db) (c : option Z) : db :=
  {| db_Posts := db_Posts s; db_Runs := db_Runs s; db_Counter := c;
     db_fs := db_fs s; db_next := db_next s |}.

(** ** Computations on the database that may raise *)

Definition M (A : Type) : Type := db -> res A * db.

Definition ret {A : Type} (a : A) : M A := fun s => (Ok a, s).

Definition raise {A : Type} (e : exn) : M A := fun s => (Raise e, s).

Definition bind {A B : Type} (m : M A) (k : A -> M B) : M B :=
  fun s => match m s with
           | (Ok a, s') => k a s'
           | (Raise e, s') => (Raise e, s')
           end.

Definition lift {A : Type} (r : res A) : M A := fun s => (r, s).

Notation "x <- m ;; k" := (bind m (fun x => k))
  (at level 61, m at next level, right associativity).
Notation "' p <- m ;; k" := (bind m (fun p => k))
  (at level 61, p pattern, m at next level, right associativity).

(** [self.gridfs.put(d)] *)
Definition gridfs_put (d : list byte) : M oid :=
  fun s => (Ok (db_next s),
            {| db_Posts := db_Posts s; db_Runs := db_Runs s; db_Counter := db_Counter s;
               db_fs := db_fs s ++ [(db_next s, d)]; db_next := S (db_next s) |}).

(** [self.gridfs.get(i).read(size=-1)] *)
Definition gridfs_get (i : oid) : M (list byte) :=
  fun s => (of_option NoFile
              (option_map snd (find (fun f => Nat.eqb (fst f) i) (db_fs s))), s).

(** [Posts.insert_one(md)] *)
Definition posts_insert_one (md : fields) : M oid :=
  fun s => (Ok (db_next s),
            {| db_Posts := db_Posts s ++ [{| _id := db_next s; body := md |}];
               db_Runs := db_Runs s; db_Counter := db_Counter s;
               db_fs := db_fs s; db_next := S (db_next s) |}).

Fixpoint replace_first (i : oid) (d : post_doc) (l : list post_doc) : list post_doc :=
  match l with
  | [] => []
  | x :: xs => if Nat.eqb (_id x) i then d :: xs else x :: replace_first i d xs
  end.

(** [Posts.replace_one({"_id": i}, d)] *)
Definition posts_replace_one (i : oid) (d : post_doc) : M unit :=
  fun s => (Ok tt, set_Posts s (replace_first i d (db_Posts s))).

(** [Posts.find({})], the documents in their natural order *)
Definition posts_find : M (list post_doc) := fun s => (Ok (db_Posts s), s).

(** The sort key of MongoDB for [OrderNum]: a missing field sorts first. *)
Definition order_leb (x y : option Z) : bool :=
  match x, y with
  | None, _ => true
  | Some _, None => false
  | Some a, Some b => a <=? b
  end.

Fixpoint first_sorted (l : list post_doc) : option post_doc :=
  match l with
  | [] => None
  | x :: xs =>
      match first_sorted xs with
      | None => Some x
      | Some y => if order_leb (md_OrderNum (body x)) (md_OrderNum (body y))
                  then Some x else Some y
      end
  end.

(** [Posts.find_one(sort=[("OrderNum", pymongo.ASCENDING)])] *)
Definition posts_find_one_sorted : M (option post_doc) :=
  fun s => (Ok (first_sorted (db_Posts s)), s).

(** [Counter.find_one()] *)
Definition counter_find_one : M (option Z) := fun s => (Ok (db_Counter s), s).

(** [Counter.insert_one({'_id': 'OrderNum', 'val': v})] *)
Definition counter_insert_one (v : Z) : M unit :=
  fun s => (Ok tt, match db_Counter s with
                   | None => set_Counter s (Some v)
                   | Some _ => s
                   end).

(** [Counter.update({'_id': 'OrderNum'}, {'$inc': {'val': 1}})] *)
Definition counter_inc : M unit :=
  fun s => (Ok tt, set_Counter s (option_map (fun v => v + 1) (db_Counter s))).

(** [Runs.insert_one(r)], giving [inserted_id] *)
Definition runs_insert_one (start : Z) : M oid :=
  fun s => (Ok (db_next s),
            {| db_Posts := db_Posts s;
               db_Runs := db_Runs s ++
                 [{| run_id := db_next s; StartProcessTime := start;
                     EndProcessTime := None; PostsProcessed := 0;
                     BatchesProcessed := 0 |}];
               db_Counter := db_Counter s; db_fs := db_fs s;
               db_next := S (db_next s) |}).

(** ** The analyzer object *)

(** [self], with the services it is connected to. *)
Record MediaAnalyzer : Type := {
  lib : Lib;
  (** GET [scraper_rest_host/query] with [limit] and [offset] *)
  query : Z -> Z -> response;
  (** whether [self._mongo_client.server_info()] answers *)
  server_up : bool;
  (** the reading of [datetime.utcnow()]; the clock is not modelled further *)
  utcnow : Z;
  document_retrieval_batch_size : Z
}.

(** A scraper service that holds the documents [docs] and answers a query
    with the [limit] documents that follow the first [offset] ones. *)
Definition paged (docs : list document) (limit offset : Z) : response :=
  Json (firstn (Z.to_nat limit) (skipn (Z.to_nat offset) docs)).

(** The last lines of [__init__]: create the counter when there is none. *)
Definition __init__ : M unit :=
  c <- counter_find_one ;;
  match c with
  | None => counter_insert_one 1
  | Some _ => ret tt
  end.

(** ** [run]: the duplicate-detection engine *)

Section Run.

Variable self : MediaAnalyzer.

(** [md.update({"IsOriginal": False, "RepostOff": i, "Reposts": None})] *)
Definition mark_repost (md : fields) (i : oid) : fields :=
  {| md_ArticleId := md_ArticleId md; md_OrderNum := md_OrderNum md;
     md_RunId := md_RunId md; md_PostProcessedTime := md_PostProcessedTime md;
     md_Dim := md_Dim md; md_Media := md_Media md; md_MediaId := md_MediaId md;
     md_IsOriginal := false; md_RepostOff := Some i; md_Reposts := None |}.

(** [pp] once [pp['Reposts']] holds the list [l] *)
Definition with_Reposts (pp : post_doc) (l : list evidence) : post_doc :=
  {| _id := _id pp;
     body := {| md_ArticleId := md_ArticleId (body pp); md_OrderNum := md_OrderNum (body pp);
                md_RunId := md_RunId (body pp);
                md_PostProcessedTime := md_PostProcessedTime (body pp);
                md_Dim := md_Dim (body pp); md_Media := md_Media (body pp);
                md_MediaId := md_MediaId (body pp);
                md_IsOriginal := md_IsOriginal (body pp);
                md_RepostOff := md_RepostOff (body pp); md_Reposts := Some l |} |}.

Definition repost_entry (md : fields) (mse ss : float) (hs : Z) : evidence :=
  {| ev_ArticleId := md_ArticleId md; ev_mse := mse; ev_ssim := ss; ev_hs := hs;
     ev_certainty := 1 |}.

(** The cascade [if hs == 0: if ss >= 0.75: if not mse >= 2000.00 and
    pp['IsOriginal']: ...] of the corpus loop; the result is [md] as the
    iteration leaves it. *)
Definition classify (hs : Z) (ss mse : float) (md : fields) (pp : post_doc) : M fields :=
  if hs =? 0 then
    if PrimFloat.leb 0.75 ss then
      if negb (PrimFloat.leb 2000 mse) && md_IsOriginal (body pp) then
        let md' := mark_repost md (_id pp) in
        (* pp['Reposts'].append(...): None has no append *)
        l <- lift (of_option AttributeError (md_Reposts (body pp))) ;;
        _ <- posts_replace_one (_id pp)
               (with_Reposts pp (l ++ [repost_entry md' mse ss hs])) ;;
        ret md'
      else ret md
    else ret md
  else ret md.

(** [not im] for the Python object [im] *)
Definition py_not (im : option ndarray) : res bool :=
  match im with
  | None => Ok true
  | Some a => let? t := array_truth a in Ok (negb t)
  end.

(** One iteration of [for pp in processed_posts], on the variables [md] and
    [im] that it reads and assigns. *)
Definition compare (pp : post_doc) (st : fields * option ndarray)
  : M (fields * option ndarray) :=
  let '(md, im) := st in
  mid <- lift (of_option KeyError (md_MediaId (body pp))) ;;
  buff <- gridfs_get mid ;;
  im0 <- lift (imdecode (lib self) buff) ;;
  '(im, im0) <- lift (_scale_images (lib self) im im0 scale_percent_dif_default) ;;
  skip <- lift (py_not im) ;;
  if (skip : bool) then ret (md, im)
  else
    match im, im0 with
    | Some a, Some b =>
        mse <- lift (_mse a b) ;;
        ss <- lift (structural_similarity (lib self) a b) ;;
        hs <- lift (_img_hash (lib self) a b cutoff_default) ;;
        md' <- classify hs ss mse md pp ;;
        ret (md', im)
    | _, _ => raise AttributeError
    end.

(** [for pp in processed_posts: ...] *)
Fixpoint scan (processed_posts : list post_doc) (st : fields * option ndarray)
  : M (fields * option ndarray) :=
  match processed_posts with
  | [] => ret st
  | pp :: rest => st' <- compare pp st ;; scan rest st'
  end.

(** The body of [for post in doc['Posts']] in resume mode, after the test on
    the article id: decode, store the bytes, build [md], compare with every
    stored post, insert. *)
Definition detect (run : oid) (p : post) : M unit :=
  d <- lift (of_option BinasciiError (b64decode (lib self) (MediaData p))) ;;
  im <- lift (imdecode (lib self) d) ;;
  media_id <- gridfs_put d ;;
  dim <- lift (attr_shape im) ;;
  let md := {| md_ArticleId := ArticleId p; md_OrderNum := None; md_RunId := run;
               md_PostProcessedTime := utcnow self; md_Dim := dim;
               md_Media := None; md_MediaId := Some media_id;
               md_IsOriginal := true; md_RepostOff := None; md_Reposts := Some [] |} in
  processed_posts <- posts_find ;;
  '(md, _) <- scan processed_posts (md, im) ;;
  _ <- posts_insert_one md ;;
  ret tt.

(** ** [run]: the save-all path *)

(** The body of [for post in doc['Posts']] when [save_all] holds. *)
Definition save_post (run : oid) (p : post) : M unit :=
  d <- lift (of_option BinasciiError (b64decode (lib self) (MediaData p))) ;;
  im <- lift (imdecode (lib self) d) ;;
  media_id <- gridfs_put d ;;
  c <- counter_find_one ;;
  order_num <- lift (of_option AttributeError c) ;;
  dim <- lift (attr_shape im) ;;
  _ <- posts_insert_one
         {| md_ArticleId := ArticleId p; md_OrderNum := Some order_num; md_RunId := run;
            md_PostProcessedTime := utcnow self; md_Dim := dim;
            md_Media := Some media_id; md_MediaId := None;
            md_IsOriginal := true; md_RepostOff := None; md_Reposts := Some [] |} ;;
  counter_inc.

(** [for post in doc['Posts']: ...; posts_processed += 1] *)
Fixpoint save_posts (run : oid) (ps : list post) (posts_processed : Z) : M Z :=
  match ps with
  | [] => ret posts_processed
  | p :: ps' => _ <- save_post run p ;; save_posts run ps' (posts_processed + 1)
  end.

Definition has_posts (doc : document) : bool := negb (Nat.eqb (length (Posts doc)) 0).

Definition no_posts (doc : document) : bool := Nat.eqb (length (Posts doc)) 0.

(** [for doc in [doc for doc in data['documents'] if len(doc['Posts']) != 0]] *)
Fixpoint save_docs (run : oid) (docs : list document) (posts_processed : Z) : M Z :=
  match docs with
  | [] => ret posts_processed
  | doc :: ds => n <- save_posts run (Posts doc) posts_processed ;; save_docs run ds n
  end.

(** ** [run]: the resume path *)

(** [for post in doc['Posts']] in resume mode; the result tells whether the
    loop was left by the [break] that sets [last_article_found]. *)
Fixpoint resume_posts (last : string) (run : oid) (ps : list post) : M bool :=
  match ps with
  | [] => ret false
  | p :: ps' =>
      if String.eqb last (ArticleId p) then ret true
      else _ <- detect run p ;; resume_posts last run ps'
  end.

(** The outer [for doc in ...] of resume mode, on the two flags
    [(final_batch, last_article_found)]. *)
Fixpoint resume_docs (last : string) (run : oid) (docs : list document)
    (flags : bool * bool) : M (bool * bool) :=
  match docs with
  | [] => ret flags
  | doc :: ds =>
      if String.eqb last (StartPostId doc) || snd flags then ret (true, snd flags)
      else
        found <- resume_posts last run (Posts doc) ;;
        resume_docs last run ds (fst flags, (found : bool))
  end.

(** ** [run]: the pagination loop *)

(** The local variables of [run] that the loop assigns. *)
Record locals : Type := {
  request_offset : Z;
  final_batch : bool;
  last_article_found : bool;
  posts_processed : Z;
  batches_processed : Z
}.

(** [requests.get(...)], [resp.raise_for_status()] *)
Definition get_checked (limit offset : Z) : res response :=
  match query self limit offset with
  | ConnectionFailed => Raise RequestException
  | HttpError => Raise RequestException
  | r => Ok r
  end.

(** [resp.json()] *)
Definition json (r : response) : res (list document) :=
  match r with
  | Json documents => Ok documents
  | _ => Raise JSONDecodeError
  end.

(** [while True: ...].  The loop ends when the upstream says so; [fuel]
    bounds the number of pages, and [None] tells that it ran out. *)
Fixpoint loop (fuel : nat) (run : oid) (last_article : option post_doc) (v : locals)
  : M (option locals) :=
  match fuel with
  | O => ret None
  | S fuel' =>
      let batch := document_retrieval_batch_size self in
      resp <- lift (get_checked batch (request_offset v)) ;;
      documents <- lift (json resp) ;;
      if Nat.eqb (length documents) 0 then ret (Some v)
      else
        let final := if Z.of_nat (length documents) <? batch then true else final_batch v in
        if Nat.eqb (length (filter no_posts documents)) (length documents) then
          loop fuel' run last_article
            {| request_offset := request_offset v + batch; final_batch := final;
               last_article_found := last_article_found v;
               posts_processed := posts_processed v;
               batches_processed := batches_processed v + 1 |}
        else
          v' <- match last_article with
                | None => (* save_all *)
                    n <- save_docs run (filter has_posts documents) (posts_processed v) ;;
                    ret {| request_offset := request_offset v; final_batch := final;
                           last_article_found := last_article_found v;
                           posts_processed := n;
                           batches_processed := batches_processed v |}
                | Some la =>
                    '(fb, found) <- resume_docs (md_ArticleId (body la)) run
                                      (filter has_posts documents)
                                      (final, last_article_found v) ;;
                    ret {| request_offset := request_offset v; final_batch := fb;
                           last_article_found := found;
                           posts_processed := posts_processed v;
                           batches_processed := batches_processed v |}
                end ;;
          if final_batch v' then ret (Some v')
          else loop fuel' run last_article
                 {| request_offset := request_offset v' + batch;
                    final_batch := final_batch v';
                    last_article_found := last_article_found v';
                    posts_processed := posts_processed v';
                    batches_processed := batches_processed v' |}
  end.

(** The [try] block of [run].  The result gives the local variables as the
    loop left them ([run] itself returns nothing). *)
Definition run_body (fuel : nat) : M (option locals) :=
  _ <- lift (get_checked 1 0) ;;
  _ <- lift (if server_up self then Ok tt else Raise ServerSelectionTimeoutError) ;;
  last_article <- posts_find_one_sorted ;;
  run <- runs_insert_one (utcnow self) ;;
  loop fuel run last_article
    {| request_offset := 0; final_batch := false; last_article_found := false;
       posts_processed := 0; batches_processed := 0 |}.

(** The three [except] clauses: each wraps what it catches. *)
Definition except_clauses (e : exn) : exn :=
  match e with
  | RequestException => AnalyzeConditionsNotMetException RequestException
  | ServerSelectionTimeoutError =>
      AnalyzeConditionsNotMetException ServerSelectionTimeoutError
  | JSONDecodeError => AnalyzeConditionsNotMetException JSONDecodeError
  | _ => e
  end.

Definition run (fuel : nat) : M (option locals) :=
  fun s => match run_body fuel s with
           | (Raise e, s') => (Raise (except_clauses e), s')
           | r => r
           end.

End Run.

(** ** A small executable instance

    Stand-ins for the library calls, used to run the model on concrete
    inputs: images travel as the bytes [height; width; pixels...], and an
    empty buffer is an error of the decoder, as it is for [cv2.imdecode];
    base64 is the identity; resizing samples the nearest pixel; the
    similarity makes the checks of skimage (equal dimensions, no side below
    the 7x7 window) and then scores 1 on equal arrays and 0 otherwise; the
    hash has one bit per pixel of the image sampled down to 8 by 8 (pixel
    above the mean). *)
Module Demo.

Definition b64decode (s : string) : option (list byte) := Some (list_byte_of_string s).

Fixpoint rows_of (w : nat) (h : nat) (px : list Z) : list (list Z) :=
  match h with
  | O => []
  | S h' => firstn w px :: rows_of w h' (skipn w px)
  end.

(** As [cv2.imdecode]: an empty buffer is an error of the call, bytes that
    are no image give [None]. *)
Definition imdecode (buff : list byte) : res (option ndarray) :=
  match map (fun b => Z.of_N (Byte.to_N b)) buff with
  | [] => Raise CvError
  | h :: w :: px =>
      if (0 <? h) && (0 <? w) && (Z.of_nat (length px) =? h * w)
      then Ok (Some (rows_of (Z.to_nat w) (Z.to_nat h) px))
      else Ok None
  | _ => Ok None
  end.

Definition pixel (a : ndarray) (i j : nat) : Z := nth j (nth i a []) 0.

Definition resize (src : ndarray) (dsize : nat * nat) : ndarray :=
  let '(w, h) := dsize in
  let '(h0, w0) := shape src in
  map (fun i => map (fun j => pixel src (i * h0 / h) (j * w0 / w)) (seq 0 w)) (seq 0 h).

Fixpoint rows_eqb (a b : ndarray) : bool :=
  match a, b with
  | [], [] => true
  | r :: a', s :: b' =>
      Nat.eqb (length r) (length s) && forallb (fun p => fst p =? snd p) (combine r s)
      && rows_eqb a' b'
  | _, _ => false
  end.

(** As [skimage.metrics.structural_similarity] on its checks: images of
    different dimensions raise [ValueError], and so do images with a side
    shorter than the 7x7 window ("win_size exceeds image extent").  The
    score itself is 1 for identical images; for others it is a placeholder. *)
Definition structural_similarity (a b : ndarray) : res float :=
  if shape_eqb (shape a) (shape b)
  then if (fst (shape a) <? 7)%nat || (snd (shape a) <? 7)%nat then Raise ValueError
       else Ok (if rows_eqb a b then 1%float else 0%float)
  else Raise ValueError.

Definition average_hash (a : ndarray) : list bool :=
  let small := concat (resize a (8%nat, 8%nat)) in
  let total := fold_left Z.add small 0 in
  map (fun p => total <? 64 * p) small.

Definition lib : Lib :=
  Build_Lib b64decode imdecode resize structural_similarity average_hash.

(** The image file of an array, as the text of [MediaData]. *)
Definition encode (a : ndarray) : string :=
  string_of_list_byte
    (map (fun z => match Byte.of_N (Z.to_N z) with Some b => b | None => x00 end)
       (Z.of_nat (fst (shape a)) :: Z.of_nat (snd (shape a)) :: concat a)).

Definition analyzer (docs : list document) (batch : Z) : MediaAnalyzer :=
  Build_MediaAnalyzer lib (paged docs) true 0 batch.

Definition empty_db : db :=
  {| db_Posts := []; db_Runs := []; db_Counter := None; db_fs := []; db_next := 0%nat |}.

End Demo.

(** ** Notions used by the statements *)

(** Every row of the array has the width that [shape] reports. *)
Definition rectangular (a : ndarray) : Prop :=
  forall r, In r a -> length r = snd (shape a).

(** The exclusivity rule of the data model on one stored record: an original
    has no [RepostOff] and carries a [Reposts] list; a repost has a
    [RepostOff] and no [Reposts] list. *)
Definition exclusive (f : fields) : Prop :=
  if md_IsOriginal f
  then md_RepostOff f = None /\ exists l, md_Reposts f = Some l
  else (exists i, md_RepostOff f = Some i) /\ md_Reposts f = None.

Definition exclusive_db (s : db) : Prop :=
  Forall (fun d => exclusive (body d)) (db_Posts s).

(** ** Sample images, stores and upstream pages *)

(** The [h] by [w] image whose pixels all are [v]. *)
Definition flat (h w : nat) (v : Z) : ndarray := repeat (repeat v w) h.

(** A stored original of the detection path, and the file of an image. *)
Definition original (i : oid) (article : string) (media : oid) (dim : nat * nat)
  : post_doc :=
  {| _id := i;
     body := {| md_ArticleId := article; md_OrderNum := None; md_RunId := 0%nat;
                md_PostProcessedTime := 0; md_Dim := dim; md_Media := None;
                md_MediaId := Some media; md_IsOriginal := true;
                md_RepostOff := None; md_Reposts := Some [] |} |}.

Arguments original i%_nat article%_string media%_nat dim.

Definition file_of (a : ndarray) : list byte := list_byte_of_string (Demo.encode a).

(** The draft [md] of the detection path for an article. *)
Definition draft (article : string) (media : oid) (dim : nat * nat) : fields :=
  {| md_ArticleId := article; md_OrderNum := None; md_RunId := 0%nat;
     md_PostProcessedTime := 0; md_Dim := dim; md_Media := None;
     md_MediaId := Some media; md_IsOriginal := true;
     md_RepostOff := None; md_Reposts := Some [] |}.

Arguments draft article%_string media%_nat dim.

(** A store with one original, whose image is the single pixel 5. *)
Definition store_one_pixel : db :=
  {| db_Posts := [original 1 "o1" 0 (1%nat, 1%nat)]; db_Runs := [];
     db_Counter := Some 1; db_fs := [(0%nat, file_of [[5]])]; db_next := 2%nat |}.

(** An upstream post carrying the image [a]. *)
Definition sample_post (article : string) (a : ndarray) : post :=
  {| ArticleId := article; MediaData := Demo.encode a |}.

Arguments sample_post article%_string a.

(** A store whose only record is the original "42", a 2x2 image; and an
    upstream page with a new 2x2 post ahead of "42". *)
Definition store_42 : db :=
  {| db_Posts := [original 1 "42" 0 (2%nat, 2%nat)]; db_Runs := [];
     db_Counter := Some 1; db_fs := [(0%nat, file_of (flat 2 2 7))]; db_next := 2%nat |}.

Definition page_new_then_42 : list document :=
  [{| StartPostId := "s";
      Posts := [sample_post "new" (flat 2 2 7); sample_post "42" (flat 2 2 7)] |}].

(** A store with two originals, 3x1 images; and an upstream page with a new
    2x1 post of another aspect ahead of "o1". *)
Definition store_tall : db :=
  {| db_Posts := [original 1 "o1" 0 (3%nat, 1%nat); original 3 "o2" 2 (3%nat, 1%nat)];
     db_Runs := []; db_Counter := Some 1;
     db_fs := [(0%nat, file_of (flat 3 1 1)); (2%nat, file_of (flat 3 1 1))];
     db_next := 4%nat |}.

Definition page_wide_then_o1 : list document :=
  [{| StartPostId := "s";
      Posts := [sample_post "new" [[200]; [1]]; sample_post "o1" (flat 3 1 1)] |}].

(** An upstream with a single document of one post, and one of three. *)
Definition page_one_post : list document :=
  [{| StartPostId := "s"; Posts := [sample_post "a" [[5]]] |}].

Definition page_three_posts : list document :=
  [{| StartPostId := "s";
      Posts := [sample_post "a" [[5]]; sample_post "b" [[6]]; sample_post "c" [[7]]] |}].

(** A page with a new single-pixel post ahead of the stored "o1".  The new
    pixel is black: [if not im:] takes the image for a pair that could not
    be scaled and goes on to the next entry. *)
Definition page_new_then_o1 : list document :=
  [{| StartPostId := "s";
      Posts := [sample_post "new" [[0]]; sample_post "o1" [[5]]] |}].

(** The page of the scenario: the last-seen article "42" first, then newer
    posts, in the only document. *)
Definition page_42_43_44 : list document :=
  [{| StartPostId := "s";
      Posts := [sample_post "42" [[5]]; sample_post "43" [[6]]; sample_post "44" [[7]]] |}].

(** The store that a first run leaves, started on an empty database in
    front of an upstream whose only post is "42". *)
Definition store_after_first_run : db :=
  snd (run (Demo.analyzer
              [{| StartPostId := "s"; Posts := [sample_post "42" (flat 2 2 7)] |}] 5)
         3 (snd (__init__ Demo.empty_db))).

(** What the statements read off a stored record. *)
Definition summary (d : post_doc) : string * option oid * option (list string) :=
  (md_ArticleId (body d), md_RepostOff (body d),
   option_map (map ev_ArticleId) (md_Reposts (body d))).

(** ** Invariants and specifications *)

(** [maintains I m Q]: from a store that satisfies [I], the computation [m]
    ends, normally or by an exception, in a store that satisfies [I], and a
    value that it returns satisfies [Q]. *)
Definition maintains {A : Type} (I : db -> Prop) (m : M A) (Q : A -> Prop) : Prop :=
  forall s, I s -> I (snd (m s)) /\ forall a, fst (m s) = Ok a -> Q a.

(** The media of a post is a well-formed image file. *)
Definition decodable (L : Lib) (p : post) : Prop :=
  exists d im, b64decode L (MediaData p) = Some d /\ imdecode L d = Ok (Some im).

(** The posts of a list of documents, in scan order. *)
Definition all_posts (docs : list document) : list post := flat_map Posts docs.

(** [n] consecutive order numbers from [c] on. *)
Fixpoint order_nums (c : Z) (n : nat) : list (option Z) :=
  match n with
  | O => []
  | S n' => Some c :: order_nums (c + 1) n'
  end.

(** A record as the save-all path writes it: an original with an empty
    [Reposts] list, and without the key that only detection writes. *)
Definition bulk_original (f : fields) : Prop :=
  md_IsOriginal f = true /\ md_RepostOff f = None /\ md_Reposts f = Some []
  /\ md_MediaId f = None.

(** The records [ds] are the posts [ps], in order, numbered from [c]. *)
Definition stored_as_bulk (c : Z) (ps : list post) (ds : list post_doc) : Prop :=
  map (fun d => md_ArticleId (body d)) ds = map ArticleId ps
  /\ map (fun d => md_OrderNum (body d)) ds = order_nums c (length ps)
  /\ Forall (fun d => bulk_original (body d)) ds.

(** The store [s'] is [s] with the posts [ps] appended as bulk originals,
    and the counter advanced accordingly. *)
Definition bulk_step (s : db) (c : Z) (ps : list post) (s' : db) : Prop :=
  exists ds, db_Posts s' = db_Posts s ++ ds /\ stored_as_bulk c ps ds
             /\ db_Counter s' = Some (c + Z.of_nat (length ps)).

(** An analyzer in front of an upstream that serves the documents [docs]
    page by page, with a reachable database. *)
Definition paged_analyzer (L : Lib) (docs : list document) (now batch : Z)
  : MediaAnalyzer :=
  Build_MediaAnalyzer L (paged docs) true now batch.

(** The posts strictly before the first occurrence of the article [last]. *)
Fixpoint before (last : string) (ps : list post) : list post :=
  match ps with
  | [] => []
  | p :: ps' => if String.eqb last (ArticleId p) then [] else p :: before last ps'
  end.

Definition occurs (last : string) (ps : list post) : bool :=
  existsb (fun p => String.eqb last (ArticleId p)) ps.

(** The detection engine on a list of posts, one after the other. *)
Fixpoint detect_all (self : MediaAnalyzer) (run : oid) (ps : list post) : M unit :=
  match ps with
  | [] => ret tt
  | p :: ps' => _ <- detect self run p ;; detect_all self run ps'
  end.

(** The posts that the scan of a page hands to detection, and the flags
    [(final_batch, last_article_found)] it ends with when detection raises
    nothing. *)
Fixpoint page_plan (last : string) (docs : list document) (flags : bool * bool)
  : list post * (bool * bool) :=
  match docs with
  | [] => ([], flags)
  | doc :: ds =>
      if String.eqb last (StartPostId doc) || snd flags then ([], (true, snd flags))
      else
        let (routed, fl) := page_plan last ds (fst flags, occurs last (Posts doc)) in
        (before last (Posts doc) ++ routed, fl)
  end.

(** [after pre a]: the computation [pre], then the value [a] when [pre]
    raises nothing. *)
Definition after {A : Type} (pre : M unit) (a : A) : M A := _ <- pre ;; ret a.

(** [m] leaves the collection [Runs] as it finds it. *)
Definition keeps_runs {A : Type} (m : M A) : Prop :=
  forall s, db_Runs (snd (m s)) = db_Runs s.

(** The record that [run] inserts into [Runs] when it starts. *)
Definition open_run (self : MediaAnalyzer) (s : db) : run_doc :=
  {| run_id := db_next s; StartProcessTime := utcnow self; EndProcessTime := None;
     PostsProcessed := 0; BatchesProcessed := 0 |}.

(** ** Further notions *)

(** What the program needs of [cv2.resize]: asked for at least one row, it
    gives an image of the requested width and height. *)
Definition resize_to_size (L : Lib) : Prop :=
  forall src w h, (0 < h)%nat -> shape (resize L src (w, h)) = (h, w).

(** [m] leaves the part [f] of the database as it finds it. *)
Definition keeps {A B : Type} (f : db -> B) (m : M A) : Prop :=
  forall s, f (snd (m s)) = f s.

(** A store as MongoDB keeps it: the [_id]s of the posts are distinct, and
    older than the next id that the database hands out. *)
Definition well_formed (s : db) : Prop :=
  NoDup (map _id (db_Posts s))
  /\ Forall (fun i => (i < db_next s)%nat) (map _id (db_Posts s)).

(** A stored post but for its [Reposts] list. *)
Definition sans_Reposts (d : post_doc) : post_doc := with_Reposts d [].

(** [s'] holds the posts of [s], in their order and the same but for their
    [Reposts] lists, followed by newer ones; and the files of [s], followed by
    newer ones. *)
Definition extends (s s' : db) : Prop :=
  (exists new, map sans_Reposts (db_Posts s') = map sans_Reposts (db_Posts s) ++ new)
  /\ (exists files, db_fs s' = db_fs s ++ files)
  /\ (db_next s <= db_next s')%nat.

Definition grows {A : Type} (m : M A) : Prop :=
  forall s, well_formed s -> well_formed (snd (m s)) /\ extends s (snd (m s)).

(** What [extends] looks at. *)
Definition stored (s : db) : list post_doc * list (oid * list byte) * oid :=
  (map sans_Reposts (db_Posts s), db_fs s, db_next s).

(** [m] changes nothing of a store that holds [pp], but for [Reposts] lists. *)
Definition keeps_stored {A : Type} (pp : post_doc) (m : M A) : Prop :=
  forall s, NoDup (map _id (db_Posts s)) ->
            In (sans_Reposts pp) (map sans_Reposts (db_Posts s)) ->
            stored (snd (m s)) = stored s.

(** The GridFS files are older than the next id that the database hands out. *)
Definition files_older (s : db) : Prop :=
  Forall (fun f => (fst f < db_next s)%nat) (db_fs s).

(** The fields that the corpus loop does not assign. *)
Definition same_but_verdict (md md' : fields) : Prop :=
  md_ArticleId md' = md_ArticleId md /\ md_OrderNum md' = md_OrderNum md
  /\ md_RunId md' = md_RunId md /\ md_PostProcessedTime md' = md_PostProcessedTime md
  /\ md_Dim md' = md_Dim md /\ md_Media md' = md_Media md
  /\ md_MediaId md' = md_MediaId md.

(** The window rule of [skimage.metrics.structural_similarity]: an image
    with a side shorter than the 7x7 window raises [ValueError] ("win_size
    exceeds image extent"). *)
Definition windowed (L : Lib) : Prop :=
  forall a b, (fst (shape a) < 7)%nat \/ (snd (shape a) < 7)%nat ->
              structural_similarity L a b = Raise ValueError.

(** An 8x8 image; a store whose only record is an original of the detection
    path showing it; and an upstream page with a new post showing the same
    image ahead of the stored article. *)
Definition gray8 : ndarray := flat 8 8 100.

Definition store_gray8 : db :=
  {| db_Posts := [original 1 "o1" 0 (8%nat, 8%nat)]; db_Runs := [];
     db_Counter := Some 1; db_fs := [(0%nat, file_of gray8)]; db_next := 2%nat |}.

Definition page_gray8 : list document :=
  [{| StartPostId := "s";
      Posts := [sample_post "new" gray8; sample_post "o1" gray8] |}].

(** * Properties *)

(** ** Floats *)

Lemma SFcompare_antisym (x y : spec_float) :
  SFcompare y x = option_map CompOpp (SFcompare x y).
Proof.
  destruct x as [sx|sx| |sx mx ex], y as [sy|sy| |sy my ey]; simpl;
    try reflexivity;
    try (destruct sx; reflexivity); try (destruct sy; reflexivity);
    try (destruct sx, sy; reflexivity).
  destruct sx, sy; simpl; try reflexivity;
    rewrite (Z.compare_antisym ex ey);
    destruct (ex ?= ey)%Z; simpl; try reflexivity;
    rewrite !Pos.compare_cont_spec; simpl;
    rewrite (Pos.compare_antisym mx my);
    destruct (mx ?= my)%positive; reflexivity.
Qed.

Lemma ltb_not_geb (x y : float) :
  PrimFloat.ltb x y = true -> PrimFloat.leb y x = false.
Proof.
  rewrite FloatAxioms.ltb_spec, FloatAxioms.leb_spec. unfold SFltb, SFleb.
  rewrite (SFcompare_antisym (Prim2SF x) (Prim2SF y)).
  destruct (SFcompare (Prim2SF x) (Prim2SF y)) as [[ | | ]|]; simpl; congruence.
Qed.

(** ** Results *)

Lemma map2_length {A B C : Type} (f : A -> B -> C) (x : list A) :
  forall y, length x = length y -> length (map2 f x y) = length x.
Proof.
  induction x as [|a x IH]; intros [|b y] H; simpl in *; try congruence.
  f_equal. apply IH. congruence.
Qed.

Lemma broadcast_same_length {A B C : Type} (f : A -> B -> C) (x : list A) (y : list B) :
  length x = length y -> broadcast f x y = Ok (map2 f x y).
Proof.
  intros H. unfold broadcast. rewrite H, Nat.eqb_refl. reflexivity.
Qed.

Lemma broadcast_mismatch {A B C : Type} (f : A -> B -> C) (x : list A) (y : list B) :
  length x <> length y -> (2 <= length x)%nat -> (2 <= length y)%nat ->
  broadcast f x y = Raise ValueError.
Proof.
  intros Hne Hx Hy. unfold broadcast.
  destruct (Nat.eqb_spec (length x) (length y)) as [E|_]; [contradiction|].
  destruct x as [|a [|a' x]]; simpl in Hx; try lia.
  destruct y as [|b [|b' y]]; simpl in Hy; try lia.
  reflexivity.
Qed.

Lemma truth_long (l : list bool) : (2 <= length l)%nat -> truth l = Raise ValueError.
Proof. destruct l as [|x [|y l]]; simpl; intros; try lia. reflexivity. Qed.

(** ** Scale normalization *)

Lemma shape_eqb_eq (s t : nat * nat) : shape_eqb s t = true <-> s = t.
Proof.
  destruct s as [a b], t as [c d]. unfold shape_eqb. simpl.
  rewrite andb_true_iff, !Nat.eqb_eq. split.
  - intros [-> ->]. reflexivity.
  - intros H. injection H as -> ->. auto.
Qed.

(** Images of identical dimensions come back unchanged. *)
Lemma scale_images_same_shape (L : Lib) (a b : ndarray) (t : float) :
  shape a = shape b -> _scale_images L (Some a) (Some b) t = Ok (Some a, Some b).
Proof.
  intros H. unfold _scale_images. simpl.
  rewrite (proj2 (shape_eqb_eq (shape a) (shape b)) H). reflexivity.
Qed.

Lemma rectangular_row (a : ndarray) (i : nat) (r : list Z) :
  rectangular a -> nth_error a i = Some r -> length r = snd (shape a).
Proof. intros R H. apply R. eapply nth_error_In. exact H. Qed.

Lemma row_exists (a : ndarray) (i : nat) :
  (i < fst (shape a))%nat -> exists r, nth_error a i = Some r.
Proof.
  simpl. intros H. destruct (nth_error a i) as [r|] eqn:E; [eauto|].
  apply nth_error_None in E. lia.
Qed.

(** Two images of different dimensions, each at least two pixels wide and
    two pixels high, never get through [_scale_images]: the rows read by
    [image[0] / image[1]] either fail to broadcast or give an array that has
    no truth value. *)
Lemma scale_images_different_shapes (L : Lib) (a b : ndarray) (t : float) :
  rectangular a -> rectangular b -> shape a <> shape b ->
  (2 <= fst (shape a))%nat -> (2 <= snd (shape a))%nat ->
  (2 <= fst (shape b))%nat -> (2 <= snd (shape b))%nat ->
  _scale_images L (Some a) (Some b) t = Raise ValueError.
Proof.
  intros Ra Rb Hne Ha Wa Hb Wb.
  unfold _scale_images. simpl attr_shape. cbn [rbind].
  destruct (shape_eqb (shape a) (shape b)) eqn:E.
  { apply shape_eqb_eq in E. contradiction. }
  destruct (row_exists a 0) as [r0 E0]; [lia|].
  destruct (row_exists a 1) as [r1 E1]; [lia|].
  destruct (row_exists b 0) as [t0 F0]; [lia|].
  destruct (row_exists b 1) as [t1 F1]; [lia|].
  pose proof (rectangular_row a 0 r0 Ra E0) as L0.
  pose proof (rectangular_row a 1 r1 Ra E1) as L1.
  pose proof (rectangular_row b 0 t0 Rb F0) as M0.
  pose proof (rectangular_row b 1 t1 Rb F1) as M1.
  unfold getitem. rewrite E0, E1, F0, F1. cbn [of_option rbind].
  rewrite (broadcast_same_length true_divide r0 r1) by congruence.
  rewrite (broadcast_same_length true_divide t0 t1) by congruence.
  cbn [rbind].
  assert (Q1 : length (map2 true_divide r0 r1) = snd (shape a)).
  { rewrite map2_length; congruence. }
  assert (Q2 : length (map2 true_divide t0 t1) = snd (shape b)).
  { rewrite map2_length; congruence. }
  destruct (Nat.eq_dec (snd (shape a)) (snd (shape b))) as [W|W].
  - rewrite broadcast_same_length by congruence. cbn [rbind].
    rewrite truth_long; [reflexivity|].
    rewrite length_map, map2_length by congruence. lia.
  - rewrite broadcast_mismatch; [reflexivity| | |]; lia.
Qed.

(** C7.  [_scale_images] gives back unchanged two images of identical
    dimensions, but for other pairs it reads the ratio and the size from
    the pixel rows [image[0]], [image[1]], not from the dimensions: two
    rectangular images of different dimensions, each at least 2x2, always
    end in [ValueError].  On a 2x2 and a 4x4 image (equal aspect ratios, the
    second has more pixels) it raises instead of scaling the bigger one
    down; on a 2x1 and a 4x1 image, whose aspect ratios differ by 0.25, it
    scales instead of answering [None]. *)
Theorem scale_images_reads_pixel_rows (L : Lib) :
  (forall a b t, shape a = shape b ->
     _scale_images L (Some a) (Some b) t = Ok (Some a, Some b))
  /\ (forall a b t, rectangular a -> rectangular b -> shape a <> shape b ->
       (2 <= fst (shape a))%nat -> (2 <= snd (shape a))%nat ->
       (2 <= fst (shape b))%nat -> (2 <= snd (shape b))%nat ->
       _scale_images L (Some a) (Some b) t = Raise ValueError)
  /\ _scale_images L (Some (flat 2 2 1)) (Some (flat 4 4 1)) scale_percent_dif_default
     = Raise ValueError
  /\ _scale_images L (Some (flat 2 1 1)) (Some (flat 4 1 1)) scale_percent_dif_default
     = Ok (Some (flat 2 1 1), Some (resize L (flat 4 1 1) (1%nat, 2%nat))).
Proof.
  split; [|split; [|split]].
  - intros a b t. apply scale_images_same_shape.
  - intros a b t. apply scale_images_different_shapes.
  - vm_compute. reflexivity.
  - vm_compute. reflexivity.
Qed.

(** ** Hash distance *)

Lemma hash_sub_nonneg (h1 h2 : list bool) (d : Z) : hash_sub h1 h2 = Ok d -> 0 <= d.
Proof.
  unfold hash_sub. destruct (Nat.eqb (length h1) (length h2)); [|discriminate].
  intros H. injection H as <-. lia.
Qed.

Lemma binary64_of_int_exact (v : Z) : 0 <= v < 2 ^ 53 -> binary64_of_int v = Ok v.
Proof.
  intros [H0 H1]. unfold binary64_of_int.
  assert (B : Z.log2 (Z.abs v) + 1 <= 53).
  { rewrite Z.abs_eq by assumption.
    destruct (Z.eq_dec v 0) as [->|N]; [simpl; lia|].
    assert (Z.log2 v < 53) by (apply Z.log2_lt_pow2; lia). lia. }
  apply Z.leb_le in B. rewrite B. reflexivity.
Qed.

Lemma half_sum (s : Z) : (Z.abs s + s) / 2 = Z.max 0 s.
Proof.
  destruct (Z.le_gt_cases 0 s) as [H|H].
  - rewrite Z.abs_eq, Z.max_r by lia.
    replace (s + s) with (s * 2) by lia. apply Z.div_mul. lia.
  - rewrite Z.abs_neq, Z.max_l by lia.
    replace (- s + s) with 0 by lia. reflexivity.
Qed.

Lemma classify_nonzero (hs : Z) (ss mse : float) (md : fields) (pp : post_doc) (s : db) :
  hs <> 0 -> classify hs ss mse md pp s = (Ok md, s).
Proof.
  intros H. unfold classify. apply Z.eqb_neq in H. rewrite H. reflexivity.
Qed.




(** ** One comparison of the corpus loop *)

Lemma array_truth_many (a : ndarray) : (1 < size a)%nat -> array_truth a = Raise ValueError.
Proof.
  intros H. unfold array_truth. apply truth_long. rewrite length_map. exact H.
Qed.

Lemma run_passes_uncategorized (self : MediaAnalyzer) (fuel : nat) (s s' : db) (e : exn) :
  run_body self fuel s = (Raise e, s') -> except_clauses e = e ->
  run self fuel s = (Raise e, s').
Proof. intros H E. unfold run. rewrite H, E. reflexivity. Qed.

Lemma scan_app (self : MediaAnalyzer) (pre rest : list post_doc) :
  forall st s,
  scan self (pre ++ rest) st s
  = match scan self pre st s with
    | (Ok st', s') => scan self rest st' s'
    | (Raise e, s') => (Raise e, s')
    end.
Proof.
  induction pre as [|pp pre IH]; intros st s; [reflexivity|].
  cbn [app scan]. unfold bind.
  destruct (compare self pp st s) as [[st1|e] s1]; [apply IH | reflexivity].
Qed.



(** The cascade on scores that pass the three thresholds, against an
    original. *)
Lemma classify_repost (ss mse : float) (md : fields) (pp : post_doc)
    (l : list evidence) (s : db) :
  PrimFloat.leb 0.75 ss = true -> PrimFloat.ltb mse 2000 = true ->
  md_IsOriginal (body pp) = true -> md_Reposts (body pp) = Some l ->
  classify 0 ss mse md pp s
  = (Ok (mark_repost md (_id pp)),
     set_Posts s (replace_first (_id pp)
                    (with_Reposts pp (l ++ [repost_entry md mse ss 0])) (db_Posts s))).
Proof.
  intros Hss Hmse Ho Hl. unfold classify. cbn [Z.eqb].
  rewrite Hss, (ltb_not_geb _ _ Hmse), Ho. cbn [negb andb].
  unfold bind, lift. rewrite Hl. reflexivity.
Qed.

Lemma truth_size (a : ndarray) (t : bool) :
  array_truth a = Ok t -> (size a <= 1)%nat.
Proof.
  unfold array_truth, size. intros H.
  rewrite <- (length_map (fun z => negb (z =? 0)) (concat a)).
  destruct (map (fun z => negb (z =? 0)) (concat a)) as [|x [|y l]];
    cbn [truth length] in *; [lia | lia | discriminate].
Qed.

Lemma width_le_size (a : ndarray) : (snd (shape a) <= size a)%nat.
Proof.
  unfold shape, size. destruct a as [|r a]; cbn [snd concat]; [lia|].
  rewrite length_app. lia.
Qed.

(** With a structural similarity that has a 7x7 window, a comparison that
    returns has classified nothing: the image that passes [if not im:] has
    a single pixel, on which the similarity raises. *)
Lemma compare_never_classifies (self : MediaAnalyzer) (pp : post_doc)
    (st st' : fields * option ndarray) (s s' : db) :
  windowed (lib self) ->
  compare self pp st s = (Ok st', s') -> fst st' = fst st /\ s' = s.
Proof.
  intros W H. destruct st as [md im]. unfold compare in H.
  unfold bind at 1, lift at 1 in H.
  destruct (of_option KeyError (md_MediaId (body pp))) as [mid|]; [|discriminate].
  unfold bind at 1, gridfs_get at 1 in H.
  destruct (of_option NoFile _) as [buff|]; [|discriminate].
  unfold bind at 1, lift at 1 in H.
  destruct (imdecode (lib self) buff) as [im0|]; [|discriminate].
  unfold bind at 1, lift at 1 in H.
  destruct (_scale_images (lib self) im im0 scale_percent_dif_default)
    as [[im1 im2]|]; [|discriminate].
  unfold bind at 1, lift at 1 in H.
  destruct (py_not im1) as [[|]|] eqn:P; [| |discriminate].
  - injection H as <- <-. split; reflexivity.
  - destruct im1 as [a|]; [|discriminate P]. cbn [py_not] in P.
    destruct (array_truth a) as [t|] eqn:T; [|discriminate P].
    destruct im2 as [b|]; [|discriminate H].
    unfold bind at 1, lift at 1 in H.
    destruct (_mse a b) as [mse|]; [|discriminate].
    unfold bind at 1, lift at 1 in H.
    rewrite (W a b) in H; [discriminate|]. right.
    pose proof (truth_size a t T). pose proof (width_le_size a). lia.
Qed.

Lemma demo_windowed : windowed Demo.lib.
Proof.
  intros a b H. cbn [structural_similarity Demo.lib].
  unfold Demo.structural_similarity.
  destruct (shape_eqb (shape a) (shape b)); [|reflexivity].
  destruct H as [H | H]; apply Nat.ltb_lt in H; rewrite H;
    [reflexivity | rewrite orb_true_r; reflexivity].
Qed.

(** What one comparison does to images of the same dimensions and more than
    one pixel. *)
Lemma compare_same_shape (self : MediaAnalyzer) (pp : post_doc) (md : fields)
    (a b : ndarray) (s : db) (mid : oid) (buff : list byte) :
  md_MediaId (body pp) = Some mid ->
  fst (gridfs_get mid s) = Ok buff ->
  imdecode (lib self) buff = Ok (Some b) ->
  shape a = shape b -> (1 < size a)%nat ->
  compare self pp (md, Some a) s = (Raise ValueError, s).
Proof.
  intros Hmid Hget Him0 Hshape Hsize.
  unfold compare, bind, lift. rewrite Hmid. cbn [of_option].
  unfold gridfs_get in *. cbn [fst] in Hget.
  rewrite Hget, Him0, (scale_images_same_shape _ a b _ Hshape).
  cbn [py_not]. rewrite (array_truth_many a Hsize). reflexivity.
Qed.

(** C1.  A pair that meets the conditions of the repost rule is not
    classified.  Whatever their scores, a candidate and a stored image of
    the same dimensions and more than one pixel end the comparison with a
    [ValueError] at [if not im:], the store being as it was.  The 8x8 image
    [gray8] against a stored original showing the same image has hash
    distance 0, similarity 1.0 and MSE 0.0, and the run that meets the pair
    raises [ValueError]: the candidate is not stored and the original gets
    no evidence entry.  With a structural similarity that has a 7x7 window,
    as the stand-in has, no comparison at all classifies its candidate: one
    that returns leaves the draft and the store as they were.  The cascade
    behind the guard is written to do what the rule says: on scores within
    the thresholds against an original, it marks the draft as a repost of
    the stored record and writes the record back with one more entry. *)
Theorem matching_pair_not_classified :
  (forall self pp md a b s mid buff,
      md_MediaId (body pp) = Some mid ->
      fst (gridfs_get mid s) = Ok buff ->
      imdecode (lib self) buff = Ok (Some b) ->
      shape a = shape b -> (1 < size a)%nat ->
      compare self pp (md, Some a) s = (Raise ValueError, s))
  /\ (_img_hash Demo.lib gray8 gray8 cutoff_default = Ok 0
      /\ structural_similarity Demo.lib gray8 gray8 = Ok 1%float
      /\ PrimFloat.leb 0.75 1 = true
      /\ _mse gray8 gray8 = Ok 0%float
      /\ PrimFloat.ltb 0 2000 = true
      /\ md_IsOriginal (body (original 1 "o1" 0 (8%nat, 8%nat))) = true)
  /\ (let r := run (Demo.analyzer page_gray8 5) 3 store_gray8 in
      fst r = Raise ValueError /\ db_Posts (snd r) = db_Posts store_gray8)
  /\ (forall self pp st st' s s',
        windowed (lib self) ->
        compare self pp st s = (Ok st', s') -> fst st' = fst st /\ s' = s)
  /\ windowed Demo.lib
  /\ (forall ss mse md pp l s,
        PrimFloat.leb 0.75 ss = true -> PrimFloat.ltb mse 2000 = true ->
        md_IsOriginal (body pp) = true -> md_Reposts (body pp) = Some l ->
        classify 0 ss mse md pp s
        = (Ok (mark_repost md (_id pp)),
           set_Posts s (replace_first (_id pp)
                          (with_Reposts pp (l ++ [repost_entry md mse ss 0]))
                          (db_Posts s)))).
Proof.
  split; [|split; [|split; [|split; [|split]]]].
  - intros self pp md a b s mid buff. apply compare_same_shape.
  - repeat split; vm_compute; reflexivity.
  - split; vm_compute; reflexivity.
  - intros self pp st st' s s'. apply compare_never_classifies.
  - exact demo_windowed.
  - intros ss mse md pp l s. apply classify_repost.
Qed.

(** ** Where the corpus scan and [run] go wrong *)

Lemma compare_without_MediaId (self : MediaAnalyzer) (pp : post_doc)
    (st : fields * option ndarray) (s : db) :
  md_MediaId (body pp) = None -> compare self pp st s = (Raise KeyError, s).
Proof.
  intros H. destruct st as [md im]. unfold compare, bind, lift. rewrite H. reflexivity.
Qed.

Lemma compare_not_scalable (self : MediaAnalyzer) (pp : post_doc) (md : fields)
    (im im0 : option ndarray) (s : db) (mid : oid) (buff : list byte) :
  md_MediaId (body pp) = Some mid ->
  fst (gridfs_get mid s) = Ok buff ->
  imdecode (lib self) buff = Ok im0 ->
  _scale_images (lib self) im im0 scale_percent_dif_default = Ok (None, None) ->
  compare self pp (md, im) s = (Ok (md, None), s).
Proof.
  intros Hmid Hget Him0 Hscale. unfold compare, bind, lift. rewrite Hmid.
  cbn [of_option]. unfold gridfs_get in *. cbn [fst] in Hget.
  rewrite Hget, Him0, Hscale. reflexivity.
Qed.

Lemma compare_after_None (self : MediaAnalyzer) (pp : post_doc) (md : fields)
    (s : db) (mid : oid) (buff : list byte) (im0 : option ndarray) :
  md_MediaId (body pp) = Some mid ->
  fst (gridfs_get mid s) = Ok buff ->
  imdecode (lib self) buff = Ok im0 ->
  compare self pp (md, None) s = (Raise AttributeError, s).
Proof.
  intros Hmid Hget Him0. unfold compare, bind, lift. rewrite Hmid. cbn [of_option].
  unfold gridfs_get in *. cbn [fst] in Hget. rewrite Hget, Him0. reflexivity.
Qed.

(** C4.  Exceptions other than [AnalyzeConditionsNotMetException] leave
    [run]:
    - a comparison with a stored record that lacks the key ["MediaId"], as
      every record of the save-all path does, raises [KeyError];
    - a comparison that cannot be scaled goes on with [im] at [None], and
      the comparison that follows raises [AttributeError];
    - a second run, on the store that a first run left, with one new post
      upstream, ends in [KeyError]; a run whose candidate meets a stored
      image of the same dimensions ends in [ValueError] (from
      [if not im:]); a run whose candidate cannot be scaled to the first of
      two stored images ends in [AttributeError]. *)
Theorem run_raises_uncategorized :
  (forall self pp st s,
      md_MediaId (body pp) = None -> compare self pp st s = (Raise KeyError, s))
  /\ (forall self pp pp' rest md im s mid buff im0 mid' buff' im0',
        md_MediaId (body pp) = Some mid -> fst (gridfs_get mid s) = Ok buff ->
        imdecode (lib self) buff = Ok im0 ->
        _scale_images (lib self) im im0 scale_percent_dif_default = Ok (None, None) ->
        md_MediaId (body pp') = Some mid' -> fst (gridfs_get mid' s) = Ok buff' ->
        imdecode (lib self) buff' = Ok im0' ->
        scan self (pp :: pp' :: rest) (md, im) s = (Raise AttributeError, s))
  /\ fst (run (Demo.analyzer page_new_then_42 5) 3 store_after_first_run) = Raise KeyError
  /\ fst (run (Demo.analyzer page_new_then_42 5) 3 store_42) = Raise ValueError
  /\ fst (run (Demo.analyzer page_wide_then_o1 5) 3 store_tall) = Raise AttributeError.
Proof.
  split; [|split; [|repeat split; vm_compute; reflexivity]].
  - intros self pp st s. apply compare_without_MediaId.
  - intros self pp pp' rest md im s mid buff im0 mid' buff' im0'
      Hmid Hget Him0 Hscale Hmid' Hget' Him0'.
    cbn [scan]. unfold bind.
    rewrite (compare_not_scalable self pp md im im0 s mid buff Hmid Hget Him0 Hscale).
    rewrite (compare_after_None self pp' md s mid' buff' im0' Hmid' Hget' Him0').
    reflexivity.
Qed.

(** ** The exclusivity invariant *)

Section Maintains.

Context {A B : Type} (I : db -> Prop).

Lemma maintains_ret (a : A) (Q : A -> Prop) : Q a -> maintains I (ret a) Q.
Proof.
  intros H s Hs. split; [exact Hs|]. simpl. intros a' E. injection E as <-. exact H.
Qed.

Lemma maintains_raise (e : exn) (Q : A -> Prop) : maintains I (raise e) Q.
Proof. intros s Hs. split; [exact Hs|]. simpl. discriminate. Qed.

Lemma maintains_lift (r : res A) (Q : A -> Prop) :
  (forall a, r = Ok a -> Q a) -> maintains I (lift r) Q.
Proof. intros H s Hs. split; [exact Hs | exact H]. Qed.

Lemma maintains_any (r : res A) : maintains I (lift r) (fun _ => True).
Proof. apply maintains_lift. auto. Qed.

Lemma maintains_bind (m : M A) (k : A -> M B) (Q : A -> Prop) (R : B -> Prop) :
  maintains I m Q -> (forall a, Q a -> maintains I (k a) R) ->
  maintains I (bind m k) R.
Proof.
  intros Hm Hk s Hs. unfold bind. destruct (Hm s Hs) as [H1 H2].
  destruct (m s) as [[a|e] s'] eqn:E; simpl in *.
  - apply (Hk a (H2 a eq_refl) s' H1).
  - split; [exact H1 | discriminate].
Qed.

End Maintains.

Lemma exclusive_replace_first (i : oid) (d : post_doc) (l : list post_doc) :
  exclusive (body d) -> Forall (fun x => exclusive (body x)) l ->
  Forall (fun x => exclusive (body x)) (replace_first i d l).
Proof.
  intros Hd Hl. induction Hl as [|x l Hx Hl IH]; simpl.
  - constructor.
  - destruct (Nat.eqb (_id x) i); constructor; assumption.
Qed.

Lemma exclusive_mark_repost (md : fields) (i : oid) : exclusive (mark_repost md i).
Proof. unfold exclusive. simpl. split; [exists i|]; reflexivity. Qed.

(** The evidence-append mutation keeps an original exclusive. *)
Lemma exclusive_with_Reposts (pp : post_doc) (l : list evidence) :
  exclusive (body pp) -> md_IsOriginal (body pp) = true ->
  exclusive (body (with_Reposts pp l)).
Proof.
  unfold exclusive. simpl. intros H Ho. rewrite Ho in *.
  destruct H as [H _]. split; [exact H | exists l; reflexivity].
Qed.

Lemma posts_find_exclusive :
  maintains exclusive_db posts_find (Forall (fun d => exclusive (body d))).
Proof.
  intros s Hs. split; [exact Hs|]. simpl. intros a E. injection E as <-. exact Hs.
Qed.

Lemma posts_insert_one_exclusive (md : fields) (Q : oid -> Prop) :
  exclusive md -> (forall i, Q i) -> maintains exclusive_db (posts_insert_one md) Q.
Proof.
  intros Hmd HQ s Hs. split; [|intros; apply HQ].
  unfold exclusive_db in *. simpl. apply Forall_app. split; [exact Hs|].
  constructor; [exact Hmd | constructor].
Qed.

Lemma posts_replace_one_exclusive (i : oid) (d : post_doc) :
  exclusive (body d) -> maintains exclusive_db (posts_replace_one i d) (fun _ => True).
Proof.
  intros Hd s Hs. split; [|auto].
  unfold exclusive_db in *. simpl. apply exclusive_replace_first; assumption.
Qed.

(** An operation that leaves the collection [Posts] alone. *)
Lemma same_posts_exclusive {A : Type} (m : M A) :
  (forall s, db_Posts (snd (m s)) = db_Posts s) ->
  maintains exclusive_db m (fun _ => True).
Proof.
  intros H s Hs. split; [|auto]. unfold exclusive_db. rewrite H. exact Hs.
Qed.

Lemma classify_exclusive (hs : Z) (ss mse : float) (md : fields) (pp : post_doc) :
  exclusive md -> exclusive (body pp) ->
  maintains exclusive_db (classify hs ss mse md pp) exclusive.
Proof.
  intros Hmd Hpp. unfold classify.
  destruct (hs =? 0); [|apply maintains_ret; exact Hmd].
  destruct (PrimFloat.leb 0.75 ss); [|apply maintains_ret; exact Hmd].
  destruct (negb (PrimFloat.leb 2000 mse)); cbn [andb];
    [|apply maintains_ret; exact Hmd].
  destruct (md_IsOriginal (body pp)) eqn:Ho; [|apply maintains_ret; exact Hmd].
  eapply maintains_bind; [apply maintains_any|]. intros l _.
  eapply maintains_bind.
  - apply posts_replace_one_exclusive. apply exclusive_with_Reposts; assumption.
  - intros _ _. apply maintains_ret. apply exclusive_mark_repost.
Qed.

Lemma compare_exclusive (self : MediaAnalyzer) (pp : post_doc)
    (st : fields * option ndarray) :
  exclusive (body pp) -> exclusive (fst st) ->
  maintains exclusive_db (compare self pp st) (fun st' => exclusive (fst st')).
Proof.
  intros Hpp Hmd. destruct st as [md im]. simpl in Hmd. unfold compare.
  eapply maintains_bind; [apply maintains_any|]. intros mid _.
  eapply maintains_bind; [apply same_posts_exclusive; reflexivity|]. intros buff _.
  eapply maintains_bind; [apply maintains_any|]. intros decoded _.
  eapply maintains_bind; [apply maintains_any|]. intros [im1 im0] _.
  eapply maintains_bind; [apply maintains_any|]. intros skip _.
  destruct skip; [apply maintains_ret; exact Hmd|].
  destruct im1 as [a|]; [|apply maintains_raise].
  destruct im0 as [b|]; [|apply maintains_raise].
  eapply maintains_bind; [apply maintains_any|]. intros mse _.
  eapply maintains_bind; [apply maintains_any|]. intros ss _.
  eapply maintains_bind; [apply maintains_any|]. intros hs _.
  eapply maintains_bind; [apply classify_exclusive; assumption|]. intros md' Hmd'.
  apply maintains_ret. exact Hmd'.
Qed.

Lemma scan_exclusive (self : MediaAnalyzer) (pps : list post_doc) :
  Forall (fun d => exclusive (body d)) pps ->
  forall st, exclusive (fst st) ->
  maintains exclusive_db (scan self pps st) (fun st' => exclusive (fst st')).
Proof.
  induction 1 as [|pp pps Hpp _ IH]; intros st Hst; cbn [scan].
  - apply maintains_ret. exact Hst.
  - eapply maintains_bind; [apply compare_exclusive; assumption|].
    intros st' Hst'. apply IH. exact Hst'.
Qed.

Lemma detect_exclusive (self : MediaAnalyzer) (run : oid) (p : post) :
  maintains exclusive_db (detect self run p) (fun _ => True).
Proof.
  unfold detect.
  eapply maintains_bind; [apply maintains_any|]. intros d _.
  eapply maintains_bind; [apply maintains_any|]. intros im0 _.
  eapply maintains_bind; [apply same_posts_exclusive; reflexivity|]. intros media_id _.
  eapply maintains_bind; [apply maintains_any|]. intros dim _.
  eapply maintains_bind; [apply posts_find_exclusive|]. intros pps Hpps.
  eapply maintains_bind.
  - apply scan_exclusive; [exact Hpps|]. simpl. unfold exclusive. simpl.
    split; [reflexivity | exists []; reflexivity].
  - intros [md im] Hmd. simpl in Hmd.
    eapply maintains_bind; [apply posts_insert_one_exclusive; [exact Hmd | exact (fun _ => I)]|].
    intros _ _. apply maintains_ret. exact I.
Qed.

Lemma save_post_exclusive (self : MediaAnalyzer) (run : oid) (p : post) :
  maintains exclusive_db (save_post self run p) (fun _ => True).
Proof.
  unfold save_post.
  eapply maintains_bind; [apply maintains_any|]. intros d _.
  eapply maintains_bind; [apply maintains_any|]. intros im0 _.
  eapply maintains_bind; [apply same_posts_exclusive; reflexivity|]. intros media_id _.
  eapply maintains_bind; [apply same_posts_exclusive; reflexivity|]. intros c _.
  eapply maintains_bind; [apply maintains_any|]. intros order_num _.
  eapply maintains_bind; [apply maintains_any|]. intros dim _.
  eapply maintains_bind.
  - apply posts_insert_one_exclusive; [|exact (fun _ => I)].
    unfold exclusive. simpl. split; [reflexivity | exists []; reflexivity].
  - intros _ _. apply same_posts_exclusive. reflexivity.
Qed.

Lemma save_posts_exclusive (self : MediaAnalyzer) (run : oid) (ps : list post) :
  forall n, maintains exclusive_db (save_posts self run ps n) (fun _ => True).
Proof.
  induction ps as [|p ps IH]; intros n; cbn [save_posts].
  - apply maintains_ret. exact I.
  - eapply maintains_bind; [apply save_post_exclusive|]. intros _ _. apply IH.
Qed.

Lemma save_docs_exclusive (self : MediaAnalyzer) (run : oid) (docs : list document) :
  forall n, maintains exclusive_db (save_docs self run docs n) (fun _ => True).
Proof.
  induction docs as [|doc ds IH]; intros n; cbn [save_docs].
  - apply maintains_ret. exact I.
  - eapply maintains_bind; [apply save_posts_exclusive|]. intros n' _. apply IH.
Qed.

Lemma resume_posts_exclusive (self : MediaAnalyzer) (last : string) (run : oid)
    (ps : list post) :
  maintains exclusive_db (resume_posts self last run ps) (fun _ => True).
Proof.
  induction ps as [|p ps IH]; cbn [resume_posts].
  - apply maintains_ret. exact I.
  - destruct (String.eqb last (ArticleId p)); [apply maintains_ret; exact I|].
    eapply maintains_bind; [apply detect_exclusive|]. intros _ _. exact IH.
Qed.

Lemma resume_docs_exclusive (self : MediaAnalyzer) (last : string) (run : oid)
    (docs : list document) :
  forall flags, maintains exclusive_db (resume_docs self last run docs flags) (fun _ => True).
Proof.
  induction docs as [|doc ds IH]; intros flags; cbn [resume_docs].
  - apply maintains_ret. exact I.
  - destruct (String.eqb last (StartPostId doc) || snd flags);
      [apply maintains_ret; exact I|].
    eapply maintains_bind; [apply resume_posts_exclusive|]. intros found _. apply IH.
Qed.

Lemma loop_exclusive (self : MediaAnalyzer) (run : oid) (last_article : option post_doc)
    (fuel : nat) :
  forall v, maintains exclusive_db (loop self fuel run last_article v) (fun _ => True).
Proof.
  induction fuel as [|fuel IH]; intros v; cbn [loop].
  - apply maintains_ret. exact I.
  - eapply maintains_bind; [apply maintains_any|]. intros resp _.
    eapply maintains_bind; [apply maintains_any|]. intros documents _.
    destruct (Nat.eqb (length documents) 0); [apply maintains_ret; exact I|].
    destruct (Nat.eqb (length (filter no_posts documents)) (length documents));
      [apply IH|].
    eapply maintains_bind with (Q := fun _ => True).
    + destruct last_article as [la|].
      * eapply maintains_bind; [apply resume_docs_exclusive|]. intros [fb found] _.
        apply maintains_ret. exact I.
      * eapply maintains_bind; [apply save_docs_exclusive|]. intros n _.
        apply maintains_ret. exact I.
    + intros v' _. destruct (final_batch v'); [apply maintains_ret; exact I | apply IH].
Qed.

Lemma run_body_exclusive (self : MediaAnalyzer) (fuel : nat) :
  maintains exclusive_db (run_body self fuel) (fun _ => True).
Proof.
  unfold run_body.
  eapply maintains_bind; [apply maintains_any|]. intros _ _.
  eapply maintains_bind; [apply maintains_any|]. intros _ _.
  eapply maintains_bind; [apply same_posts_exclusive; reflexivity|]. intros la _.
  eapply maintains_bind; [apply same_posts_exclusive; reflexivity|]. intros run _.
  apply loop_exclusive.
Qed.

(** C9.  Exclusivity is an invariant of the store under [run], whatever the
    upstream sends and however the run ends: every record of [Posts] stays
    either an original without [RepostOff] and with a [Reposts] list, or a
    repost with a [RepostOff] and without a [Reposts] list.  Both insertions
    write exclusive records, and appending evidence to an original keeps it
    exclusive. *)
Theorem run_keeps_exclusive (self : MediaAnalyzer) (fuel : nat) (s : db) :
  exclusive_db s ->
  exclusive_db (snd (run self fuel s))
  /\ (forall run p, maintains exclusive_db (save_post self run p) (fun _ => True))
  /\ (forall run p, maintains exclusive_db (detect self run p) (fun _ => True))
  /\ (forall pp l e, exclusive (body pp) -> md_IsOriginal (body pp) = true ->
      md_Reposts (body pp) = Some l -> exclusive (body (with_Reposts pp (l ++ [e])))).
Proof.
  intros Hs. split; [|split; [|split]].
  - unfold run. destruct (run_body_exclusive self fuel s Hs) as [H _].
    destruct (run_body self fuel s) as [[v|e] s']; exact H.
  - intros run p. apply save_post_exclusive.
  - intros run p. apply detect_exclusive.
  - intros pp l e Hpp Ho _. apply exclusive_with_Reposts; assumption.
Qed.

Lemma run_keeps_exclusive_witness :
  exclusive_db
    (snd (run (Demo.analyzer [] 5) 3%nat
            (snd (detect (Demo.analyzer [] 5) 9%nat (sample_post "new" [[5]])
                    store_one_pixel)))).
Proof.
  refine (proj1 (run_keeps_exclusive (Demo.analyzer [] 5) 3%nat _ _)).
  vm_compute. repeat constructor; try (eexists; reflexivity).
Defined.

(** ** The save-all path *)

Lemma order_nums_app (n m : nat) :
  forall c, order_nums c (n + m) = order_nums c n ++ order_nums (c + Z.of_nat n) m.
Proof.
  induction n as [|n IH]; intros c.
  - simpl. rewrite Z.add_0_r. reflexivity.
  - cbn [order_nums Nat.add app]. rewrite IH. do 3 f_equal. lia.
Qed.

Lemma order_nums_increasing (n : nat) :
  forall c i j a b, (i < j)%nat ->
  nth_error (order_nums c n) i = Some (Some a) ->
  nth_error (order_nums c n) j = Some (Some b) -> a < b /\ a = c + Z.of_nat i.
Proof.
  induction n as [|n IH]; intros c i j a b Hij Hi Hj.
  - destruct i; discriminate.
  - destruct j as [|j]; [lia|]. destruct i as [|i]; simpl in Hi, Hj.
    + injection Hi as <-. split; [|lia].
      clear IH Hij. revert c j Hj. induction n as [|n IH]; intros c j Hj.
      * destruct j; discriminate.
      * destruct j as [|j]; simpl in Hj.
        -- injection Hj as <-. lia.
        -- specialize (IH (c + 1) j). simpl in IH.
           assert (c + 1 < b) by (apply IH; exact Hj). lia.
    + destruct (IH (c + 1) i j a b) as [H1 H2]; [lia | assumption | assumption |].
      split; [exact H1 | lia].
Qed.

Lemma stored_as_bulk_app (c : Z) (ps ps' : list post) (ds ds' : list post_doc) :
  stored_as_bulk c ps ds -> stored_as_bulk (c + Z.of_nat (length ps)) ps' ds' ->
  stored_as_bulk c (ps ++ ps') (ds ++ ds').
Proof.
  intros (A1 & A2 & A3) (B1 & B2 & B3). repeat split.
  - rewrite !map_app. congruence.
  - rewrite map_app, length_app, order_nums_app. congruence.
  - apply Forall_app. split; assumption.
Qed.

Lemma bulk_step_refl (s : db) (c : Z) : db_Counter s = Some c -> bulk_step s c [] s.
Proof.
  intros H. exists []. rewrite app_nil_r. simpl. rewrite Z.add_0_r.
  repeat split; try assumption. constructor.
Qed.

Lemma bulk_step_trans (s s1 s2 : db) (c : Z) (ps ps' : list post) :
  bulk_step s c ps s1 -> bulk_step s1 (c + Z.of_nat (length ps)) ps' s2 ->
  bulk_step s c (ps ++ ps') s2.
Proof.
  intros (ds & P1 & B1 & C1) (ds' & P2 & B2 & C2). exists (ds ++ ds').
  split; [|split].
  - rewrite P2, P1, app_assoc. reflexivity.
  - apply stored_as_bulk_app; assumption.
  - rewrite C2, length_app. f_equal. lia.
Qed.

Section SaveAll.

Variable self : MediaAnalyzer.
Variable run_id : oid.

Lemma save_post_spec (p : post) (s : db) (c : Z) :
  decodable (lib self) p -> db_Counter s = Some c ->
  exists s', save_post self run_id p s = (Ok tt, s') /\ bulk_step s c [p] s'.
Proof.
  intros (d & im & Hd & Him) Hc.
  unfold save_post, bind, lift. rewrite Hd. cbn [of_option gridfs_put].
  cbn [counter_find_one db_Counter]. rewrite Hc, Him. cbn [of_option attr_shape].
  eexists. split; [reflexivity|].
  eexists. cbn [counter_inc posts_insert_one snd db_Posts db_Counter set_Counter].
  split; [reflexivity|]. split; [|reflexivity].
  repeat split. repeat constructor.
Qed.

Lemma save_posts_spec (ps : list post) :
  forall (n : Z) (s : db) (c : Z),
  Forall (decodable (lib self)) ps -> db_Counter s = Some c ->
  exists s', save_posts self run_id ps n s = (Ok (n + Z.of_nat (length ps)), s')
             /\ bulk_step s c ps s'.
Proof.
  induction ps as [|p ps IH]; intros n s c Hps Hc.
  - exists s. simpl. rewrite Z.add_0_r. split; [reflexivity|].
    apply bulk_step_refl. exact Hc.
  - inversion Hps as [|? ? Hp Hps']; subst.
    destruct (save_post_spec p s c Hp Hc) as (s1 & E1 & B1).
    assert (C1 : db_Counter s1 = Some (c + 1)).
    { destruct B1 as (ds & _ & _ & C). exact C. }
    destruct (IH (n + 1) s1 (c + 1) Hps' C1) as (s2 & E2 & B2).
    exists s2. split.
    + cbn [save_posts]. unfold bind. rewrite E1, E2. do 2 f_equal.
      cbn [length]. lia.
    + apply (bulk_step_trans s s1 s2 c [p] ps B1 B2).
Qed.

Lemma save_docs_spec (docs : list document) :
  forall (n : Z) (s : db) (c : Z),
  Forall (decodable (lib self)) (all_posts docs) -> db_Counter s = Some c ->
  exists s', save_docs self run_id docs n s
             = (Ok (n + Z.of_nat (length (all_posts docs))), s')
             /\ bulk_step s c (all_posts docs) s'.
Proof.
  induction docs as [|doc ds IH]; intros n s c Hps Hc.
  - exists s. simpl. rewrite Z.add_0_r. split; [reflexivity|].
    apply bulk_step_refl. exact Hc.
  - unfold all_posts in Hps. cbn [flat_map] in Hps. apply Forall_app in Hps.
    destruct Hps as [Hp Hps].
    destruct (save_posts_spec (Posts doc) n s c Hp Hc) as (s1 & E1 & B1).
    assert (C1 : db_Counter s1 = Some (c + Z.of_nat (length (Posts doc)))).
    { destruct B1 as (x & _ & _ & C). exact C. }
    destruct (IH (n + Z.of_nat (length (Posts doc))) s1 _ Hps C1) as (s2 & E2 & B2).
    exists s2. split.
    + cbn [save_docs]. unfold bind. rewrite E1, E2. do 2 f_equal.
      unfold all_posts. cbn [flat_map]. rewrite length_app. lia.
    + unfold all_posts. cbn [flat_map].
      apply (bulk_step_trans s s1 s2 c (Posts doc) _ B1 B2).
Qed.

End SaveAll.

Lemma all_posts_app (a b : list document) : all_posts (a ++ b) = all_posts a ++ all_posts b.
Proof. unfold all_posts. apply flat_map_app. Qed.

Lemma filter_keeps_all {A : Type} (f : A -> bool) (l : list A) :
  length (filter f l) = length l -> Forall (fun x => f x = true) l.
Proof.
  induction l as [|x l IH]; intros H; [constructor|].
  simpl in H. destruct (f x) eqn:E.
  - simpl in H. constructor; [exact E | apply IH; lia].
  - pose proof (filter_length_le f l). lia.
Qed.

Lemma all_posts_no_posts (docs : list document) :
  Forall (fun d => no_posts d = true) docs -> all_posts docs = [].
Proof.
  induction 1 as [|d ds Hd _ IH]; [reflexivity|].
  unfold all_posts in *. cbn [flat_map]. rewrite IH.
  unfold no_posts in Hd. apply Nat.eqb_eq in Hd.
  destruct (Posts d); [reflexivity | discriminate].
Qed.

Lemma all_posts_has_posts (docs : list document) :
  all_posts (filter has_posts docs) = all_posts docs.
Proof.
  induction docs as [|d ds IH]; [reflexivity|].
  unfold all_posts in *. cbn [filter flat_map]. unfold has_posts at 1.
  destruct (Posts d) eqn:E; cbn [length Nat.eqb negb flat_map].
  - exact IH.
  - rewrite E, IH. reflexivity.
Qed.

(** ** The pagination loop in save-all mode *)

Section PagedSaveAll.

Variables (L : Lib) (docs : list document) (now batch : Z) (run_id : oid).
Hypothesis batch_positive : 0 < batch.

Lemma paged_get (limit offset : Z) :
  get_checked (paged_analyzer L docs now batch) limit offset
  = Ok (Json (firstn (Z.to_nat limit) (skipn (Z.to_nat offset) docs))).
Proof. reflexivity. Qed.

Lemma short_page_is_last (rest : list document) :
  Z.of_nat (length (firstn (Z.to_nat batch) rest)) < batch ->
  firstn (Z.to_nat batch) rest = rest /\ skipn (Z.to_nat batch) rest = [].
Proof.
  rewrite length_firstn. intros H.
  assert (length rest <= Z.to_nat batch)%nat by lia.
  split; [apply firstn_all2 | apply skipn_all2]; assumption.
Qed.

Lemma next_offset (offset : Z) :
  0 <= offset ->
  skipn (Z.to_nat (offset + batch)) docs
  = skipn (Z.to_nat batch) (skipn (Z.to_nat offset) docs).
Proof.
  intros H. rewrite skipn_skipn. f_equal. lia.
Qed.

Lemma loop_save_all_spec (n : nat) :
  forall (rest : list document) (v : locals) (s : db) (c : Z),
  (length rest <= n)%nat ->
  0 <= request_offset v ->
  skipn (Z.to_nat (request_offset v)) docs = rest ->
  (final_batch v = true -> rest = []) ->
  db_Counter s = Some c ->
  Forall (decodable L) (all_posts rest) ->
  exists v' s',
    loop (paged_analyzer L docs now batch) (S n) run_id None v s = (Ok (Some v'), s')
    /\ bulk_step s c (all_posts rest) s'
    /\ posts_processed v' = posts_processed v + Z.of_nat (length (all_posts rest)).
Proof.
  induction n as [|n IH]; intros rest v s c Hlen Hoff Hskip Hfin Hc Hdec;
    [|remember (S n) as k eqn:Ek];
    cbn [loop]; unfold bind at 1, lift at 1; rewrite paged_get;
    unfold bind at 1, lift at 1; cbn [json document_retrieval_batch_size paged_analyzer];
    rewrite Hskip.
  - destruct rest; [|simpl in Hlen; lia]. rewrite firstn_nil. cbn [length Nat.eqb].
    exists v, s. split; [reflexivity|].
    split; [apply bulk_step_refl; exact Hc | simpl; lia].
  - subst k. destruct rest as [|d rest0].
    { rewrite firstn_nil. cbn [length Nat.eqb].
      exists v, s. split; [reflexivity|].
      split; [apply bulk_step_refl; exact Hc | simpl; lia]. }
    set (rest := d :: rest0) in *.
    set (page := firstn (Z.to_nat batch) rest).
    set (rest' := skipn (Z.to_nat batch) rest).
    assert (Hsplit : rest = page ++ rest') by (symmetry; apply firstn_skipn).
    assert (Hpage : Nat.eqb (length page) 0 = false).
    { apply Nat.eqb_neq. unfold page, rest. rewrite length_firstn. cbn [length]. lia. }
    assert (Hlen' : (length rest' <= n)%nat).
    { unfold rest', rest in *. rewrite length_skipn. cbn [length] in *. lia. }
    assert (Hnf : final_batch v = false).
    { destruct (final_batch v); [|reflexivity]. discriminate (Hfin eq_refl). }
    rewrite Hpage, Hnf.
    assert (Hshort : (Z.of_nat (length page) <? batch) = true -> page = rest /\ rest' = []).
    { intros H. apply Z.ltb_lt in H. apply short_page_is_last. exact H. }
    assert (Hdec' : Forall (decodable L) (all_posts page)
                    /\ Forall (decodable L) (all_posts rest')).
    { rewrite Hsplit, all_posts_app in Hdec. apply Forall_app in Hdec. exact Hdec. }
    destruct Hdec' as [Hdp Hdr].
    assert (Hnext : skipn (Z.to_nat (request_offset v + batch)) docs = rest').
    { rewrite next_offset by assumption. rewrite Hskip. reflexivity. }
    destruct (Nat.eqb (length (filter no_posts page)) (length page)) eqn:Hfill.
    + (* a page without posts *)
      apply Nat.eqb_eq, filter_keeps_all, all_posts_no_posts in Hfill.
      match goal with
      | |- context [loop _ _ _ _ ?v1 s] =>
          destruct (IH rest' v1 s c) as (v' & s' & E & B & P);
            [exact Hlen' | | exact Hnext | | exact Hc | exact Hdr |]
      end.
      * cbn [request_offset]. lia.
      * cbn [final_batch]. destruct (Z.of_nat (length page) <? batch) eqn:El.
        -- intros _. apply Hshort. reflexivity.
        -- discriminate.
      * exists v', s'. split; [exact E|].
        rewrite Hsplit, all_posts_app, Hfill. cbn [app].
        split; [exact B | exact P].
    + (* a page with posts *)
      destruct (save_docs_spec (paged_analyzer L docs now batch) run_id
                  (filter has_posts page) (posts_processed v) s c) as (s1 & E1 & B1).
      { rewrite all_posts_has_posts. exact Hdp. }
      { exact Hc. }
      rewrite all_posts_has_posts in E1, B1.
      unfold bind at 1. unfold bind at 1. rewrite E1. cbn [ret final_batch].
      assert (C1 : db_Counter s1 = Some (c + Z.of_nat (length (all_posts page)))).
      { destruct B1 as (x & _ & _ & C). exact C. }
      destruct (Z.of_nat (length page) <? batch) eqn:El.
      * destruct (Hshort eq_refl) as [Hp Hr].
        eexists. exists s1. split; [reflexivity|].
        rewrite Hsplit, Hr, app_nil_r. split; [exact B1 | reflexivity].
      * match goal with
        | |- context [loop _ _ _ _ ?v1 s1] =>
            destruct (IH rest' v1 s1 (c + Z.of_nat (length (all_posts page))) Hlen')
              as (v' & s' & E & B & P);
              [ | exact Hnext | | exact C1 | exact Hdr |]
        end.
        -- cbn [request_offset]. lia.
        -- cbn [final_batch]. discriminate.
        -- exists v', s'. split; [exact E|].
           rewrite Hsplit, all_posts_app. split.
           ++ apply (bulk_step_trans s s1 s' c _ _ B1 B).
           ++ rewrite P. cbn [posts_processed]. rewrite length_app. lia.
Qed.

End PagedSaveAll.

Lemma init_counter (s0 : db) :
  db_Posts (snd (__init__ s0)) = db_Posts s0
  /\ db_Counter (snd (__init__ s0))
     = Some (match db_Counter s0 with Some v => v | None => 1 end).
Proof.
  unfold __init__, bind, counter_find_one, counter_insert_one.
  destruct (db_Counter s0) as [v|] eqn:E; cbn [ret snd set_Counter db_Posts db_Counter].
  - rewrite E. split; reflexivity.
  - rewrite E. split; reflexivity.
Qed.

(** C3.  A run on a store without any post, with the counter that
    [__init__] leaves (1 on a fresh store), in front of an upstream that
    serves the documents [docs] page by page and whose posts carry decodable
    images: the run returns, and [Posts] then holds exactly the posts
    received, in the order received, each one an original with an empty
    [Reposts] list and no trace of the detection path, numbered
    [c, c+1, c+2, ...]: strictly increasing in admission order. *)
Theorem save_all_stores_every_post (L : Lib) (docs : list document) (now batch : Z)
    (s0 : db) :
  0 < batch ->
  db_Posts s0 = [] ->
  Forall (decodable L) (all_posts docs) ->
  let c := match db_Counter s0 with Some v => v | None => 1 end in
  exists fuel v s',
    run (paged_analyzer L docs now batch) fuel (snd (__init__ s0)) = (Ok (Some v), s')
    /\ map (fun d => md_ArticleId (body d)) (db_Posts s') = map ArticleId (all_posts docs)
    /\ map (fun d => md_OrderNum (body d)) (db_Posts s')
       = order_nums c (length (all_posts docs))
    /\ Forall (fun d => bulk_original (body d)) (db_Posts s')
    /\ posts_processed v = Z.of_nat (length (all_posts docs))
    /\ (forall i j a b, (i < j)%nat ->
        nth_error (map (fun d => md_OrderNum (body d)) (db_Posts s')) i = Some (Some a) ->
        nth_error (map (fun d => md_OrderNum (body d)) (db_Posts s')) j = Some (Some b) ->
        a < b).
Proof.
  intros Hb H0 Hdec c.
  destruct (init_counter s0) as [Ip Ic]. fold c in Ic.
  set (s := snd (__init__ s0)) in *.
  set (s1 := snd (runs_insert_one now s)).
  destruct (loop_save_all_spec L docs now batch (db_next s) Hb (length docs) docs
              {| request_offset := 0; final_batch := false; last_article_found := false;
                 posts_processed := 0; batches_processed := 0 |} s1 c)
    as (v & s' & E & (ds & P & (A1 & A2 & A3) & _) & N).
  - lia.
  - cbn [request_offset]. lia.
  - reflexivity.
  - cbn [final_batch]. discriminate.
  - exact Ic.
  - exact Hdec.
  - assert (Hposts : db_Posts s' = ds).
    { rewrite P. unfold s1. cbn [runs_insert_one snd db_Posts]. rewrite Ip, H0.
      reflexivity. }
    exists (S (length docs)), v, s'. split; [|rewrite Hposts; repeat split].
    + unfold run, run_body, bind, lift. rewrite paged_get.
      cbn [server_up paged_analyzer posts_find_one_sorted].
      rewrite Ip, H0. cbn [first_sorted].
      change (runs_insert_one (utcnow (paged_analyzer L docs now batch)) s)
        with (Ok (db_next s), s1).
      change (Build_MediaAnalyzer L (paged docs) true now batch)
        with (paged_analyzer L docs now batch).
      cbv iota beta. rewrite E. reflexivity.
    + exact A1.
    + exact A2.
    + exact A3.
    + rewrite N. cbn [posts_processed]. lia.
    + intros i j a b Hij Hi Hj. rewrite A2 in Hi, Hj.
      apply (order_nums_increasing _ c i j a b Hij Hi Hj).
Qed.

Lemma save_all_stores_every_post_witness :
  exists fuel v s',
    run (paged_analyzer Demo.lib page_three_posts 0 5) fuel (snd (__init__ Demo.empty_db))
    = (Ok (Some v), s')
    /\ map (fun d => md_OrderNum (body d)) (db_Posts s') = [Some 1; Some 2; Some 3].
Proof.
  destruct (save_all_stores_every_post Demo.lib page_three_posts 0 5 Demo.empty_db)
    as (fuel & v & s' & E & _ & O & _).
  - reflexivity.
  - reflexivity.
  - repeat constructor; eexists; eexists; split; vm_compute; reflexivity.
  - exists fuel, v, s'. split; [exact E | exact O].
Defined.

(** ** The resume path: what a page routes to detection *)

Lemma before_app (last : string) (a b : list post) :
  before last (a ++ b)
  = if occurs last a then before last a else a ++ before last b.
Proof.
  induction a as [|p a IH]; [reflexivity|].
  unfold occurs in *. cbn [app before existsb].
  destruct (String.eqb last (ArticleId p)); [reflexivity|].
  cbn [orb]. rewrite IH. destruct (existsb _ a); reflexivity.
Qed.

Lemma before_all (last : string) (a : list post) :
  occurs last a = false -> before last a = a.
Proof.
  induction a as [|p a IH]; [reflexivity|].
  unfold occurs in *. cbn [before existsb].
  destruct (String.eqb last (ArticleId p)); [discriminate|].
  cbn [orb]. intros H. rewrite IH by exact H. reflexivity.
Qed.

Lemma occurs_app (last : string) (a b : list post) :
  occurs last (a ++ b) = occurs last a || occurs last b.
Proof. unfold occurs. apply existsb_app. Qed.

Section Resume.

Variable self : MediaAnalyzer.
Variable last : string.
Variable run_id : oid.

Lemma detect_all_app (a b : list post) (s : db) :
  detect_all self run_id (a ++ b) s
  = match detect_all self run_id a s with
    | (Ok _, s') => detect_all self run_id b s'
    | (Raise e, s') => (Raise e, s')
    end.
Proof.
  revert s. induction a as [|p a IH]; intros s; [reflexivity|].
  cbn [app detect_all]. unfold bind.
  destruct (detect self run_id p s) as [[[]|e] s1]; [apply IH | reflexivity].
Qed.

Lemma resume_posts_plan (ps : list post) (s : db) :
  resume_posts self last run_id ps s
  = after (detect_all self run_id (before last ps)) (occurs last ps) s.
Proof.
  revert s. unfold after. induction ps as [|p ps IH]; intros s; [reflexivity|].
  unfold occurs in *. cbn [resume_posts before existsb].
  destruct (String.eqb last (ArticleId p)); [reflexivity|].
  cbn [orb detect_all]. unfold bind in *.
  destruct (detect self run_id p s) as [[[]|e] s1]; [apply IH | reflexivity].
Qed.

Lemma resume_docs_plan (docs : list document) :
  forall (flags : bool * bool) (s : db),
  resume_docs self last run_id docs flags s
  = after (detect_all self run_id (fst (page_plan last docs flags)))
      (snd (page_plan last docs flags)) s.
Proof.
  unfold after. induction docs as [|doc ds IH]; intros flags s; [reflexivity|].
  cbn [resume_docs page_plan].
  destruct (String.eqb last (StartPostId doc) || snd flags); [reflexivity|].
  unfold bind at 1. rewrite resume_posts_plan. unfold after.
  destruct (page_plan last ds (fst flags, occurs last (Posts doc))) as [routed fl] eqn:Ep.
  cbn [fst snd]. unfold bind in *. rewrite detect_all_app.
  destruct (detect_all self run_id (before last (Posts doc)) s) as [[[]|e] s1];
    [|reflexivity].
  cbn [ret]. rewrite IH, Ep. reflexivity.
Qed.

End Resume.

Lemma page_plan_found (last : string) (docs : list document) (final : bool) :
  fst (page_plan last docs (final, true)) = []
  /\ (docs <> [] -> snd (page_plan last docs (final, true)) = (true, true)).
Proof.
  destruct docs as [|doc ds]; cbn [page_plan snd].
  - split; [reflexivity | congruence].
  - rewrite orb_true_r. split; reflexivity.
Qed.

Lemma page_plan_prefix (last : string) (docs : list document) :
  forall flags, exists rest,
    before last (all_posts docs) = fst (page_plan last docs flags) ++ rest.
Proof.
  induction docs as [|doc ds IH]; intros flags.
  - exists []. reflexivity.
  - cbn [page_plan].
    destruct (String.eqb last (StartPostId doc) || snd flags).
    + eexists. reflexivity.
    + unfold all_posts. cbn [flat_map]. fold (all_posts ds). rewrite before_app.
      destruct (occurs last (Posts doc)) eqn:Eo.
      * destruct (page_plan_found last ds (fst flags)) as [H _].
        destruct (page_plan last ds (fst flags, true)) as [routed fl].
        cbn [fst] in *. subst routed. exists []. rewrite !app_nil_r. reflexivity.
      * destruct (IH (fst flags, false)) as [rest Hrest].
        destruct (page_plan last ds (fst flags, false)) as [routed fl].
        cbn [fst] in *. exists rest.
        rewrite (before_all _ _ Eo), Hrest, app_assoc. reflexivity.
Qed.

Lemma page_plan_complete (last : string) (docs : list document) :
  forall final,
  Forall (fun d => String.eqb last (StartPostId d) = false) docs ->
  fst (page_plan last docs (final, false)) = before last (all_posts docs)
  /\ snd (snd (page_plan last docs (final, false))) = occurs last (all_posts docs).
Proof.
  induction docs as [|doc ds IH]; intros final Hs.
  - split; reflexivity.
  - inversion Hs as [|? ? Hd Hds]; subst.
    cbn [page_plan snd fst]. rewrite Hd. cbn [orb].
    unfold all_posts. cbn [flat_map]. fold (all_posts ds).
    rewrite before_app, occurs_app.
    destruct (occurs last (Posts doc)) eqn:Eo.
    + destruct (page_plan_found last ds final) as [H1 H2].
      destruct ds as [|d ds'].
      * cbn [page_plan fst snd]. rewrite app_nil_r. split; reflexivity.
      * specialize (H2 ltac:(discriminate)).
        destruct (page_plan last (d :: ds') (final, true)) as [routed fl].
        cbn [fst snd] in *. subst. rewrite app_nil_r. split; reflexivity.
    + destruct (IH final Hds) as [H1 H2].
      destruct (page_plan last ds (final, false)) as [routed fl].
      cbn [fst snd orb] in *. subst routed.
      rewrite (before_all _ _ Eo). split; [reflexivity | exact H2].
Qed.

Lemma page_plan_final (last : string) (d1 : list document) :
  forall (dk : document) (d2 : list document) (final : bool),
  Forall (fun d => String.eqb last (StartPostId d) = false) (d1 ++ dk :: d2) ->
  occurs last (all_posts d1) = false -> occurs last (Posts dk) = true ->
  snd (page_plan last (d1 ++ dk :: d2) (final, false))
  = (match d2 with [] => final | _ :: _ => true end, true).
Proof.
  induction d1 as [|d d1 IH]; intros dk d2 final Hs H1 Hk.
  - cbn [app] in *. inversion Hs as [|? ? Hd Hds]; subst.
    cbn [page_plan snd fst]. rewrite Hd, Hk. cbn [orb].
    destruct d2 as [|d' d2'].
    + reflexivity.
    + destruct (page_plan_found last (d' :: d2') final) as [_ H2].
      specialize (H2 ltac:(discriminate)).
      destruct (page_plan last (d' :: d2') (final, true)) as [routed fl].
      exact H2.
  - cbn [app] in *. inversion Hs as [|? ? Hd Hds]; subst.
    unfold all_posts in H1. cbn [flat_map] in H1. fold (all_posts d1) in H1.
    rewrite occurs_app in H1. apply orb_false_iff in H1. destruct H1 as [Ha Hb].
    cbn [page_plan snd fst]. rewrite Hd, Ha. cbn [orb].
    specialize (IH dk d2 final Hds Hb Hk).
    destruct (page_plan last (d1 ++ dk :: d2) (final, false)) as [routed fl].
    exact IH.
Qed.

Lemma after_ok {A : Type} (pre : M unit) (a a' : A) (s : db) :
  fst (after pre a s) = Ok a' -> fst (pre s) = Ok tt /\ a' = a.
Proof.
  unfold after, bind. destruct (pre s) as [[[]|e] s1]; cbn [fst ret].
  - intros H. injection H as <-. split; reflexivity.
  - discriminate.
Qed.



(** ** The run record *)

Lemma keeps_runs_bind {A B : Type} (m : M A) (k : A -> M B) :
  keeps_runs m -> (forall a, keeps_runs (k a)) -> keeps_runs (bind m k).
Proof.
  intros Hm Hk s. unfold bind. specialize (Hm s).
  destruct (m s) as [[a|e] s1]; cbn [snd] in *.
  - rewrite Hk. exact Hm.
  - exact Hm.
Qed.

Ltac keeps_runs_step :=
  match goal with
  | |- keeps_runs (bind _ _) => apply keeps_runs_bind; [|intros]
  | |- keeps_runs (ret _) => intros ?; reflexivity
  | |- keeps_runs (raise _) => intros ?; reflexivity
  | |- keeps_runs (lift _) => intros ?; reflexivity
  | |- keeps_runs (gridfs_put _) => intros ?; reflexivity
  | |- keeps_runs (gridfs_get _) => intros ?; reflexivity
  | |- keeps_runs posts_find => intros ?; reflexivity
  | |- keeps_runs counter_find_one => intros ?; reflexivity
  | |- keeps_runs counter_inc => intros ?; reflexivity
  | |- keeps_runs (posts_insert_one _) => intros ?; reflexivity
  | |- keeps_runs (posts_replace_one _ _) => intros ?; reflexivity
  | |- keeps_runs (if ?b then _ else _) => destruct b
  | |- keeps_runs (match ?x with Some _ => _ | None => _ end) => destruct x
  | |- keeps_runs (let (_, _) := ?p in _) => destruct p
  end.

Lemma classify_keeps_runs (hs : Z) (ss mse : float) (md : fields) (pp : post_doc) :
  keeps_runs (classify hs ss mse md pp).
Proof. unfold classify. repeat keeps_runs_step. Qed.

Lemma compare_keeps_runs (self : MediaAnalyzer) (pp : post_doc)
    (st : fields * option ndarray) : keeps_runs (compare self pp st).
Proof.
  unfold compare. destruct st as [md im].
  repeat first [apply classify_keeps_runs | keeps_runs_step].
Qed.

Lemma scan_keeps_runs (self : MediaAnalyzer) (pps : list post_doc) :
  forall st, keeps_runs (scan self pps st).
Proof.
  induction pps as [|pp pps IH]; intros st; cbn [scan].
  - keeps_runs_step.
  - apply keeps_runs_bind; [apply compare_keeps_runs | exact IH].
Qed.

Lemma detect_keeps_runs (self : MediaAnalyzer) (run : oid) (p : post) :
  keeps_runs (detect self run p).
Proof.
  unfold detect. repeat first [apply scan_keeps_runs | keeps_runs_step].
Qed.

Lemma save_docs_keeps_runs (self : MediaAnalyzer) (run : oid) (docs : list document) :
  forall n, keeps_runs (save_docs self run docs n).
Proof.
  assert (P : forall ps n, keeps_runs (save_posts self run ps n)).
  { induction ps as [|p ps IH]; intros n; cbn [save_posts].
    - keeps_runs_step.
    - apply keeps_runs_bind; [|intros; apply IH].
      unfold save_post. repeat keeps_runs_step. }
  induction docs as [|doc ds IH]; intros n; cbn [save_docs].
  - keeps_runs_step.
  - apply keeps_runs_bind; [apply P | exact IH].
Qed.

Lemma resume_docs_keeps_runs (self : MediaAnalyzer) (last : string) (run : oid)
    (docs : list document) :
  forall flags, keeps_runs (resume_docs self last run docs flags).
Proof.
  assert (P : forall ps, keeps_runs (resume_posts self last run ps)).
  { induction ps as [|p ps IH]; cbn [resume_posts].
    - keeps_runs_step.
    - keeps_runs_step; [keeps_runs_step|].
      apply keeps_runs_bind; [apply detect_keeps_runs | intros; exact IH]. }
  induction docs as [|doc ds IH]; intros flags; cbn [resume_docs].
  - keeps_runs_step.
  - keeps_runs_step; [keeps_runs_step|].
    apply keeps_runs_bind; [apply P | intros; apply IH].
Qed.

Lemma loop_keeps_runs (self : MediaAnalyzer) (run : oid) (last_article : option post_doc)
    (fuel : nat) :
  forall v, keeps_runs (loop self fuel run last_article v).
Proof.
  induction fuel as [|fuel IH]; intros v; cbn [loop].
  - keeps_runs_step.
  - apply keeps_runs_bind; [keeps_runs_step | intros resp].
    apply keeps_runs_bind; [keeps_runs_step | intros documents].
    keeps_runs_step; [keeps_runs_step|].
    keeps_runs_step; [apply IH|].
    apply keeps_runs_bind.
    + destruct last_article as [la|].
      * apply keeps_runs_bind; [apply resume_docs_keeps_runs|].
        intros [fb found]. keeps_runs_step.
      * apply keeps_runs_bind; [apply save_docs_keeps_runs|].
        intros n. keeps_runs_step.
    + intros v'. keeps_runs_step; [keeps_runs_step | apply IH].
Qed.

(** Whenever [run] returns, the record it inserted at the start is the last
    of [Runs], still without end time and with both counters at 0. *)
Lemma run_leaves_record_open (self : MediaAnalyzer) (fuel : nat) (s s' : db)
    (v : option locals) :
  run self fuel s = (Ok v, s') -> db_Runs s' = db_Runs s ++ [open_run self s].
Proof.
  unfold run, run_body, bind, lift.
  destruct (get_checked self 1 0) as [r|e]; [|discriminate].
  destruct (server_up self); [|discriminate].
  cbn [posts_find_one_sorted runs_insert_one].
  match goal with
  | |- context [loop self fuel ?i ?la ?v0 ?s1] =>
      pose proof (loop_keeps_runs self i la fuel v0 s1) as K;
      destruct (loop self fuel i la v0 s1) as [[w|e] s2]
  end; [|discriminate].
  intros H. injection H as _ <-. exact K.
Qed.

(** C6.  Whenever [run] returns, in either mode, the run record is the one
    inserted at the start: [EndProcessTime] is still [None] and both
    counters are still 0.  On a save-all run over one page of one post, the
    run ends on the short page with one post stored; the local counter of
    batches is 0 for the page iterated, and nothing is written back.  On a
    resume run that stores one post through detection, the local counter
    of posts stays 0 as well. *)
Theorem run_record_never_finalized :
  (forall self fuel s s' v,
      run self fuel s = (Ok v, s') -> db_Runs s' = db_Runs s ++ [open_run self s])
  /\ (let r := run (Demo.analyzer page_one_post 5) 3 (snd (__init__ Demo.empty_db)) in
      fst r = Ok (Some {| request_offset := 0; final_batch := true;
                          last_article_found := false; posts_processed := 1;
                          batches_processed := 0 |})
      /\ length (db_Posts (snd r)) = 1%nat
      /\ db_Runs (snd r)
         = [{| run_id := 0%nat; StartProcessTime := 0; EndProcessTime := None;
               PostsProcessed := 0; BatchesProcessed := 0 |}])
  /\ (let r := run (Demo.analyzer page_new_then_o1 5) 3 store_one_pixel in
      fst r = Ok (Some {| request_offset := 0; final_batch := true;
                          last_article_found := true; posts_processed := 0;
                          batches_processed := 0 |})
      /\ map summary (db_Posts (snd r))
         = [("o1"%string, None, Some []); ("new"%string, None, Some [])]
      /\ db_Runs (snd r)
         = [{| run_id := 2%nat; StartProcessTime := 0; EndProcessTime := None;
               PostsProcessed := 0; BatchesProcessed := 0 |}]).
Proof.
  split; [|split].
  - intros self fuel s s' v. apply run_leaves_record_open.
  - vm_compute. repeat split; reflexivity.
  - vm_compute. repeat split; reflexivity.
Qed.

(** * Further properties of the code *)

(** ** [_scale_images] *)

Lemma broadcast_length {A B C : Type} (f : A -> B -> C) (x : list A) (y : list B)
    (d : list C) :
  broadcast f x y = Ok d ->
  (length x = length y /\ length d = length x)
  \/ (length x = 1%nat /\ length d = length y)
  \/ (length y = 1%nat /\ length d = length x).
Proof.
  unfold broadcast. destruct (Nat.eqb_spec (length x) (length y)) as [E|N].
  - intros H. injection H as <-. left. split; [exact E | apply map2_length; exact E].
  - destruct x as [|a [|a' x]].
    + destruct y as [|b [|b' y]]; try discriminate.
      intros H. injection H as <-. right. right. split; reflexivity.
    + intros H. injection H as <-. right. left. split; [reflexivity | apply length_map].
    + destruct y as [|b [|b' y]]; try discriminate.
      intros H. injection H as <-. right. right.
      split; [reflexivity | simpl; rewrite length_map; reflexivity].
Qed.

Lemma truth_short (l : list bool) (b : bool) : truth l = Ok b -> (length l <= 1)%nat.
Proof. destruct l as [|x [|y l]]; simpl; intros H; [lia | lia | discriminate]. Qed.

Lemma getitem_ok (a : ndarray) (i : nat) (r : list Z) :
  getitem a i = Ok r -> nth_error a i = Some r /\ (i < length a)%nat.
Proof.
  unfold getitem. destruct (nth_error a i) as [x|] eqn:E; [|discriminate].
  intros H. injection H as <-. split; [reflexivity|].
  apply nth_error_Some. congruence.
Qed.

Lemma getitem_short (a : ndarray) (i : nat) :
  (length a <= i)%nat -> getitem a i = Raise IndexError.
Proof.
  intros H. unfold getitem. apply nth_error_None in H. rewrite H. reflexivity.
Qed.

Lemma shape_pair (a : ndarray) : shape a = (fst (shape a), snd (shape a)).
Proof. reflexivity. Qed.

(** The steps of [_scale_images] on two arrays of different dimensions, read
    off a normal return. *)
Lemma scale_images_steps (L : Lib) (a b : ndarray) (t : float)
    (r : option ndarray * option ndarray) :
  shape a <> shape b ->
  _scale_images L (Some a) (Some b) t = Ok r ->
  exists r0 r1 t0 t1 q1 q2 d far,
    getitem a 0 = Ok r0 /\ getitem a 1 = Ok r1 /\ broadcast true_divide r0 r1 = Ok q1
    /\ getitem b 0 = Ok t0 /\ getitem b 1 = Ok t1 /\ broadcast true_divide t0 t1 = Ok q2
    /\ broadcast PrimFloat.sub q1 q2 = Ok d
    /\ truth (map (fun x => PrimFloat.leb t (PrimFloat.abs x)) d) = Ok far
    /\ (r = (None, None)
        \/ r = (Some (resize L a (snd (shape b), fst (shape b))), Some b)
        \/ r = (Some a, Some (resize L b (snd (shape a), fst (shape a))))).
Proof.
  intros Hne. unfold _scale_images. cbn [attr_shape rbind].
  destruct (shape_eqb (shape a) (shape b)) eqn:E.
  { apply shape_eqb_eq in E. contradiction. }
  destruct (getitem a 0) as [r0|] eqn:A0; [|discriminate]. cbn [rbind].
  destruct (getitem a 1) as [r1|] eqn:A1; [|discriminate]. cbn [rbind].
  destruct (broadcast true_divide r0 r1) as [q1|] eqn:Q1; [|discriminate]. cbn [rbind].
  destruct (getitem b 0) as [t0|] eqn:B0; [|discriminate]. cbn [rbind].
  destruct (getitem b 1) as [t1|] eqn:B1; [|discriminate]. cbn [rbind].
  destruct (broadcast true_divide t0 t1) as [q2|] eqn:Q2; [|discriminate]. cbn [rbind].
  destruct (broadcast PrimFloat.sub q1 q2) as [d|] eqn:D; [|discriminate]. cbn [rbind].
  destruct (truth (map _ d)) as [far|] eqn:T; [|discriminate]. cbn [rbind].
  intros H. exists r0, r1, t0, t1, q1, q2, d, far.
  do 8 (split; [assumption || reflexivity|]).
  destruct far.
  - injection H as <-. left. reflexivity.
  - destruct (sum_rows (firstn 2 a)) as [u1|]; [|discriminate]. cbn [rbind] in H.
    destruct (sum_rows (firstn 2 b)) as [u2|]; [|discriminate]. cbn [rbind] in H.
    destruct (broadcast _ u1 u2) as [g|]; [|discriminate]. cbn [rbind] in H.
    destruct (truth g) as [[|]|]; [| |discriminate]; cbn [rbind] in H;
      injection H as <-; auto.
Qed.

(** X1.  Whenever [_scale_images] returns on two arrays, with a [cv2.resize]
    that gives the size it is asked for, it returns either [(None, None)]
    or two images of equal dimensions, at least one of which is the
    argument itself. *)
Theorem scale_images_returns_equal_shapes (L : Lib) (a b : ndarray) (t : float)
    (r1 r2 : option ndarray) :
  resize_to_size L ->
  _scale_images L (Some a) (Some b) t = Ok (r1, r2) ->
  (r1 = None /\ r2 = None)
  \/ (exists a' b', r1 = Some a' /\ r2 = Some b' /\ shape a' = shape b'
                    /\ (a' = a \/ b' = b)).
Proof.
  intros HL H.
  destruct (shape_eqb (shape a) (shape b)) eqn:E.
  - apply shape_eqb_eq in E. rewrite (scale_images_same_shape L a b t E) in H.
    injection H as <- <-. right. exists a, b. auto.
  - assert (Hne : shape a <> shape b).
    { intros C. apply shape_eqb_eq in C. congruence. }
    destruct (scale_images_steps L a b t _ Hne H)
      as (r0 & r1' & t0 & t1 & q1 & q2 & d & far & A0 & A1 & _ & B0 & B1 & _ & _ & _ & R).
    apply getitem_ok in A1, B1. destruct A1 as [_ A1]. destruct B1 as [_ B1].
    destruct R as [R|[R|R]]; injection R as -> ->.
    + left. split; reflexivity.
    + right. eexists. exists b. split; [reflexivity|]. split; [reflexivity|].
      split; [|right; reflexivity].
      rewrite HL by (cbn [shape fst]; lia). symmetry. apply shape_pair.
    + right. exists a. eexists. split; [reflexivity|]. split; [reflexivity|].
      split; [|left; reflexivity].
      rewrite HL by (cbn [shape fst]; lia). apply shape_pair.
Qed.

Lemma demo_resize_to_size : resize_to_size Demo.lib.
Proof.
  intros src w h Hh. cbn [resize Demo.lib]. unfold Demo.resize.
  destruct (shape src) as [h0 w0]. unfold shape.
  rewrite length_map, length_seq. f_equal.
  destruct h as [|h]; [lia|]. cbn [seq map]. rewrite length_map, length_seq. reflexivity.
Qed.

Lemma scale_images_returns_equal_shapes_witness :
  (Some (flat 2 1 1) = None /\ Some (resize Demo.lib (flat 4 1 1) (1%nat, 2%nat)) = None)
  \/ (exists a' b' : ndarray,
        Some (flat 2 1 1) = Some a'
        /\ Some (resize Demo.lib (flat 4 1 1) (1%nat, 2%nat)) = Some b'
        /\ shape a' = shape b' /\ (a' = flat 2 1 1 \/ b' = flat 4 1 1)).
Proof.
  apply (scale_images_returns_equal_shapes Demo.lib (flat 2 1 1) (flat 4 1 1)
           scale_percent_dif_default).
  - apply demo_resize_to_size.
  - vm_compute. reflexivity.
Defined.

(** X2.  [_scale_images] on inputs it cannot index: an argument that is
    [None] raises [AttributeError]; with different dimensions, a first image
    of fewer than two rows raises [IndexError], and so does a second image
    of fewer than two rows behind a rectangular first image. *)
Theorem scale_images_bad_input (L : Lib) (t : float) :
  (forall b, _scale_images L None b t = Raise AttributeError)
  /\ (forall a, _scale_images L (Some a) None t = Raise AttributeError)
  /\ (forall a b, shape a <> shape b -> (length a < 2)%nat ->
      _scale_images L (Some a) (Some b) t = Raise IndexError)
  /\ (forall a b, shape a <> shape b -> rectangular a -> (2 <= length a)%nat ->
      (length b < 2)%nat ->
      _scale_images L (Some a) (Some b) t = Raise IndexError).
Proof.
  split; [reflexivity|]. split; [reflexivity|]. split.
  - intros a b Hne Ha. unfold _scale_images. cbn [attr_shape rbind].
    destruct (shape_eqb (shape a) (shape b)) eqn:E.
    { apply shape_eqb_eq in E. contradiction. }
    destruct a as [|r0 [|r1 a]]; [reflexivity | reflexivity | simpl in Ha; lia].
  - intros a b Hne Ra Ha Hb. unfold _scale_images. cbn [attr_shape rbind].
    destruct (shape_eqb (shape a) (shape b)) eqn:E.
    { apply shape_eqb_eq in E. contradiction. }
    destruct (row_exists a 0) as [r0 E0]; [simpl; lia|].
    destruct (row_exists a 1) as [r1 E1]; [simpl; lia|].
    pose proof (rectangular_row a 0 r0 Ra E0) as L0.
    pose proof (rectangular_row a 1 r1 Ra E1) as L1.
    unfold getitem at 1 2. rewrite E0, E1. cbn [of_option rbind].
    rewrite (broadcast_same_length true_divide r0 r1) by congruence. cbn [rbind].
    destruct b as [|t0 [|t1 b]]; [reflexivity | reflexivity | simpl in Hb; lia].
Qed.

(** X3.  Two rectangular images of different dimensions get through
    [_scale_images] only when both have at least two rows and are at most
    one pixel wide. *)
Theorem scale_images_only_narrow (L : Lib) (a b : ndarray) (t : float)
    (r : option ndarray * option ndarray) :
  rectangular a -> rectangular b -> shape a <> shape b ->
  _scale_images L (Some a) (Some b) t = Ok r ->
  (2 <= length a)%nat /\ (2 <= length b)%nat
  /\ (snd (shape a) <= 1)%nat /\ (snd (shape b) <= 1)%nat.
Proof.
  intros Ra Rb Hne H.
  destruct (scale_images_steps L a b t r Hne H)
    as (r0 & r1 & t0 & t1 & q1 & q2 & d & far & A0 & A1 & Q1 & B0 & B1 & Q2 & D & T & _).
  apply getitem_ok in A0, A1, B0, B1.
  destruct A0 as [A0 _], A1 as [A1 HA], B0 as [B0 _], B1 as [B1 HB].
  pose proof (rectangular_row a 0 r0 Ra A0) as L0.
  pose proof (rectangular_row a 1 r1 Ra A1) as L1.
  pose proof (rectangular_row b 0 t0 Rb B0) as M0.
  pose proof (rectangular_row b 1 t1 Rb B1) as M1.
  rewrite broadcast_same_length in Q1, Q2 by congruence.
  injection Q1 as <-. injection Q2 as <-.
  apply truth_short in T. rewrite length_map in T.
  apply broadcast_length in D. rewrite !map2_length in D by congruence.
  repeat split; lia.
Qed.

Lemma scale_images_only_narrow_witness :
  (2 <= length (flat 2 1 1))%nat /\ (2 <= length (flat 4 1 1))%nat
  /\ (snd (shape (flat 2 1 1)) <= 1)%nat /\ (snd (shape (flat 4 1 1)) <= 1)%nat.
Proof.
  apply (scale_images_only_narrow Demo.lib (flat 2 1 1) (flat 4 1 1)
           scale_percent_dif_default
           (Some (flat 2 1 1), Some (resize Demo.lib (flat 4 1 1) (1%nat, 2%nat)))).
  - intros r [<-|[<-|[]]]; reflexivity.
  - intros r [<-|[<-|[<-|[<-|[]]]]]; reflexivity.
  - vm_compute. discriminate.
  - vm_compute. reflexivity.
Defined.

(** ** [_mse] *)

Lemma sequence_broadcast_rows {C : Type} (f : Z -> Z -> C) (w : nat) :
  forall a b : ndarray,
  length a = length b ->
  Forall (fun r => length r = w) a -> Forall (fun r => length r = w) b ->
  exists rows, sequence (map2 (fun r s => broadcast f r s) a b) = Ok rows.
Proof.
  induction a as [|r a IH]; intros [|s b] Hl Ha Hb; simpl in Hl; try discriminate.
  - exists []. reflexivity.
  - inversion Ha as [|? ? Hr Ha']; subst. inversion Hb as [|? ? Hs Hb']; subst.
    destruct (IH b) as [rows E]; [congruence | assumption | assumption |].
    exists (map2 f r s :: rows). cbn [map2 sequence].
    rewrite broadcast_same_length by congruence. cbn [rbind]. rewrite E. reflexivity.
Qed.

Lemma rectangular_rows (a : ndarray) :
  rectangular a -> Forall (fun r => length r = snd (shape a)) a.
Proof. intros R. apply Forall_forall. exact R. Qed.

Lemma broadcast2_defined {C : Type} (f : Z -> Z -> C) (a b : ndarray) :
  rectangular a -> rectangular b -> shape a = shape b ->
  exists rows, broadcast2 f a b = Ok rows.
Proof.
  intros Ra Rb Hs. unfold broadcast2.
  assert (Hl : length a = length b) by (injection Hs; auto).
  rewrite broadcast_same_length by exact Hl. cbn [rbind].
  apply (sequence_broadcast_rows f (snd (shape a))); [exact Hl | |].
  - apply rectangular_rows. exact Ra.
  - rewrite Hs. apply rectangular_rows. exact Rb.
Qed.

(** X4.  [_mse] returns a value, without raising, on two rectangular images
    of equal dimensions; on images whose numbers of rows differ, neither
    being a single row, it raises [ValueError]. *)
Theorem mse_defined_on_equal_shapes :
  (forall a b, rectangular a -> rectangular b -> shape a = shape b ->
     exists e, _mse a b = Ok e)
  /\ (forall a b, length a <> length b -> (2 <= length a)%nat -> (2 <= length b)%nat ->
      _mse a b = Raise ValueError).
Proof.
  split.
  - intros a b Ra Rb Hs. unfold _mse.
    match goal with
    | |- context [broadcast2 ?f a b] =>
        destruct (broadcast2_defined f a b Ra Rb Hs) as [rows E]; rewrite E
    end.
    cbn [rbind]. eexists. reflexivity.
  - intros a b Hne Ha Hb. unfold _mse, broadcast2.
    rewrite broadcast_mismatch by assumption. reflexivity.
Qed.

(** ** [_img_hash] *)

Lemma hash_sub_sym (h1 h2 : list bool) : hash_sub h1 h2 = hash_sub h2 h1.
Proof.
  unfold hash_sub. rewrite (Nat.eqb_sym (length h1)).
  destruct (Nat.eqb (length h2) (length h1)); [|reflexivity].
  do 2 f_equal. revert h2. induction h1 as [|x h1 IH]; intros [|y h2]; try reflexivity.
  cbn [combine filter fst snd]. rewrite (xorb_comm x y).
  destruct (xorb y x); cbn [length]; rewrite IH; reflexivity.
Qed.

Lemma differing_bits_same (h : list bool) :
  filter (fun p => xorb (fst p) (snd p)) (combine h h) = [].
Proof.
  induction h as [|x h IH]; [reflexivity|].
  cbn [combine filter fst snd]. rewrite xorb_nilpotent. exact IH.
Qed.

(** X5.  The hash distance does not depend on the order of the two
    images. *)
Theorem img_hash_symmetric (L : Lib) (a b : ndarray) (c : Z) :
  _img_hash L a b c = _img_hash L b a c.
Proof. unfold _img_hash. rewrite hash_sub_sym. reflexivity. Qed.

(** X6.  Two images with the same hash are at distance 0 for every cutoff
    that is not negative. *)
Theorem img_hash_equal_hashes (L : Lib) (a b : ndarray) (c : Z) :
  average_hash L a = average_hash L b -> 0 <= c -> _img_hash L a b c = Ok 0.
Proof.
  intros Hh Hc. unfold _img_hash, hash_sub. rewrite Hh, Nat.eqb_refl.
  rewrite differing_bits_same. cbn [length Z.of_nat rbind].
  unfold int_of_half_sum. rewrite half_sum.
  rewrite Z.max_l by lia. reflexivity.
Qed.

Lemma img_hash_equal_hashes_witness :
  _img_hash Demo.lib (flat 2 2 7) (flat 2 2 9) cutoff_default = Ok 0.
Proof.
  apply img_hash_equal_hashes; [vm_compute; reflexivity | vm_compute; discriminate].
Defined.

Lemma binary64_of_int_sign (v r : Z) :
  0 <= v -> binary64_of_int v = Ok r -> 0 <= r /\ (r = 0 <-> v = 0).
Proof.
  intros Hv. unfold binary64_of_int.
  destruct (Z.log2 (Z.abs v) + 1 <=? 53) eqn:E.
  - intros H. injection H as <-. split; [exact Hv | reflexivity].
  - apply Z.leb_gt in E. rewrite Z.abs_eq in * by exact Hv.
    set (sh := Z.log2 v + 1 - 53) in *.
    assert (Hsh : 0 < sh) by (unfold sh; lia).
    assert (Hpos : 0 < v).
    { destruct (Z.eq_dec v 0) as [->|]; [simpl in E; lia | lia]. }
    assert (Hq : 1 <= Z.shiftr v sh).
    { rewrite Z.shiftr_div_pow2 by lia.
      apply Z.div_le_lower_bound; [apply Z.pow_pos_nonneg; lia|].
      rewrite Z.mul_1_r.
      apply Z.le_trans with (2 ^ Z.log2 v).
      - apply Z.pow_le_mono_r; unfold sh; lia.
      - apply Z.log2_spec. exact Hpos. }
    assert (Hp : 0 < 2 ^ sh) by (apply Z.pow_pos_nonneg; lia).
    match goal with
    | |- context [if ?c then ?x + 1 else ?x] =>
        set (q' := if c then x + 1 else x);
        assert (Hq' : 1 <= q') by (unfold q'; destruct c; lia)
    end.
    destruct (2 ^ 1024 <=? q' * 2 ^ sh); [discriminate|].
    intros H. injection H as <-.
    rewrite Z.sgn_pos by exact Hpos.
    assert (0 < q' * 2 ^ sh) by nia.
    split; [lia|]. split; intros; lia.
Qed.

(** X7.  For every cutoff, also beyond the range where the float division
    is exact: whenever [_img_hash] returns, its result is not negative, and
    it is 0 exactly when the number of differing hash bits is at most the
    cutoff.  Hashes of different lengths raise [TypeError]. *)
Theorem img_hash_sign (L : Lib) (a b : ndarray) (c : Z) :
  (forall r, _img_hash L a b c = Ok r ->
     0 <= r
     /\ exists d, hash_sub (average_hash L a) (average_hash L b) = Ok d
                  /\ (r = 0 <-> d <= c))
  /\ (length (average_hash L a) <> length (average_hash L b) ->
      _img_hash L a b c = Raise TypeError).
Proof.
  split.
  - unfold _img_hash. intros r H.
    destruct (hash_sub (average_hash L a) (average_hash L b)) as [d|] eqn:Hd;
      [|discriminate].
    cbn [rbind] in H. unfold int_of_half_sum in H. rewrite half_sum in H.
    destruct (binary64_of_int_sign _ r (Z.le_max_l 0 (d - c)) H) as [H0 Hz].
    split; [exact H0|]. exists d. split; [reflexivity|].
    rewrite Hz. lia.
  - intros Hne. unfold _img_hash, hash_sub.
    apply Nat.eqb_neq in Hne. rewrite Hne. reflexivity.
Qed.

(** ** [run]: validation, run record, end of the loop *)

(** X8.  When the validation at the start of [run] fails, [run] raises
    [AnalyzeConditionsNotMetException] and the database is exactly as it
    was, without a run record: for a failed request to the scraper the
    cause is the [RequestException], for an unreachable MongoDB behind a
    reachable scraper it is the [ServerSelectionTimeoutError]. *)
Theorem run_validation_failure (self : MediaAnalyzer) (fuel : nat) (s : db) :
  (query self 1 0 = ConnectionFailed \/ query self 1 0 = HttpError ->
   run self fuel s = (Raise (AnalyzeConditionsNotMetException RequestException), s))
  /\ (query self 1 0 <> ConnectionFailed -> query self 1 0 <> HttpError ->
      server_up self = false ->
      run self fuel s
      = (Raise (AnalyzeConditionsNotMetException ServerSelectionTimeoutError), s)).
Proof.
  split.
  - intros H. unfold run, run_body, bind, lift, get_checked.
    destruct H as [-> | ->]; reflexivity.
  - intros H1 H2 Hup. unfold run, run_body, bind, lift, get_checked.
    destruct (query self 1 0); try contradiction; rewrite Hup; reflexivity.
Qed.

(** X9.  Once the validation has passed, the run record is inserted and
    stays as inserted however [run] ends, by a return or by any exception:
    [Runs] is the collection as it was plus the open record. *)
Theorem run_record_open_on_any_outcome (self : MediaAnalyzer) (fuel : nat) (s : db) :
  query self 1 0 <> ConnectionFailed -> query self 1 0 <> HttpError ->
  server_up self = true ->
  db_Runs (snd (run self fuel s)) = db_Runs s ++ [open_run self s].
Proof.
  intros H1 H2 Hup. unfold run, run_body, bind, lift.
  assert (G : exists r, get_checked self 1 0 = Ok r).
  { unfold get_checked. destruct (query self 1 0); try contradiction; eauto. }
  destruct G as [r ->]. rewrite Hup.
  cbn [posts_find_one_sorted runs_insert_one].
  match goal with
  | |- context [loop self fuel ?i ?la ?v0 ?s1] =>
      pose proof (loop_keeps_runs self i la fuel v0 s1) as K;
      destruct (loop self fuel i la v0 s1) as [[w|e] s2]
  end; exact K.
Qed.

Lemma run_record_open_on_any_outcome_witness :
  fst (run (Demo.analyzer page_new_then_42 5) 3 store_42) = Raise ValueError
  /\ db_Runs (snd (run (Demo.analyzer page_new_then_42 5) 3 store_42))
     = db_Runs store_42 ++ [open_run (Demo.analyzer page_new_then_42 5) store_42].
Proof.
  split; [vm_compute; reflexivity|].
  apply run_record_open_on_any_outcome.
  - vm_compute. discriminate.
  - vm_compute. discriminate.
  - reflexivity.
Defined.

Lemma loop_returns_at_end (self : MediaAnalyzer) (run : oid) (la : option post_doc)
    (fuel : nat) :
  forall v s v' s',
  loop self fuel run la v s = (Ok (Some v'), s') ->
  (final_batch v' = true
   \/ query self (document_retrieval_batch_size self) (request_offset v') = Json [])
  /\ exists k, request_offset v'
               = request_offset v + Z.of_nat k * document_retrieval_batch_size self.
Proof.
  induction fuel as [|fuel IH]; intros v s v' s' H; cbn [loop] in H.
  - discriminate.
  - unfold bind at 1, lift at 1 in H.
    destruct (get_checked self _ (request_offset v)) as [resp|] eqn:G; [|discriminate].
    unfold bind at 1, lift at 1 in H.
    destruct (json resp) as [documents|] eqn:J; [|discriminate].
    destruct (Nat.eqb (length documents) 0) eqn:E0.
    + injection H as <- <-. split.
      * right. unfold get_checked in G.
        destruct (query self _ (request_offset v)) as [| | |docs];
          try discriminate G; injection G as <-; cbn [json] in J;
          try discriminate J.
        injection J as <-.
        apply Nat.eqb_eq in E0. destruct docs; [reflexivity | discriminate].
      * exists 0%nat. lia.
    + destruct (Nat.eqb (length (filter no_posts documents)) (length documents)).
      * apply IH in H. destruct H as [H1 [k Hk]]. split; [exact H1|].
        exists (S k). rewrite Hk. cbn [request_offset]. lia.
      * unfold bind at 1 in H.
        match type of H with
        | (let (_, _) := ?m s in _) = _ => destruct (m s) as [[v1|e] s1] eqn:P
        end; [|discriminate].
        assert (O : request_offset v1 = request_offset v).
        { destruct la as [la|]; unfold bind in P.
          - destruct (resume_docs self _ run _ _ s) as [[[fb found]|e] s2];
              [|discriminate].
            cbv beta iota in P. unfold ret in P. injection P as <- _. reflexivity.
          - destruct (save_docs self run _ _ s) as [[n|e] s2]; [|discriminate].
            cbv beta iota in P. unfold ret in P. injection P as <- _. reflexivity. }
        destruct (final_batch v1) eqn:F.
        -- injection H as <- <-. split; [left; exact F|].
           exists 0%nat. rewrite O. lia.
        -- apply IH in H. destruct H as [H1 [k Hk]]. split; [exact H1|].
           exists (S k). rewrite Hk. cbn [request_offset]. rewrite O. lia.
Qed.

(** X10.  [run] returns only at the end of the upstream or on a final
    batch: when it returns, either [final_batch] is set (a page shorter
    than the batch size, or the boundary in resume mode), or the page at
    the offset reached is empty; and that offset is a whole number of
    batches. *)
Theorem run_returns_at_end (self : MediaAnalyzer) (fuel : nat) (s s' : db) (v : locals) :
  run self fuel s = (Ok (Some v), s') ->
  (final_batch v = true
   \/ query self (document_retrieval_batch_size self) (request_offset v) = Json [])
  /\ exists k, request_offset v = Z.of_nat k * document_retrieval_batch_size self.
Proof.
  unfold run, run_body, bind, lift.
  destruct (get_checked self 1 0) as [r|e]; [|discriminate].
  destruct (server_up self); [|discriminate].
  cbn [posts_find_one_sorted runs_insert_one].
  match goal with
  | |- context [loop self fuel ?i ?la ?v0 ?s1] =>
      destruct (loop self fuel i la v0 s1) as [[w|e] s2] eqn:E
  end; [|discriminate].
  intros H. injection H as -> <-.
  apply loop_returns_at_end in E. exact E.
Qed.

Lemma run_returns_at_end_witness :
  (false = true \/ query (Demo.analyzer page_42_43_44 1) 1 1 = Json [])
  /\ exists k, 1 = Z.of_nat k * 1.
Proof.
  apply (run_returns_at_end (Demo.analyzer page_42_43_44 1) 3 store_after_first_run
           (snd (run (Demo.analyzer page_42_43_44 1) 3 store_after_first_run))
           {| request_offset := 1; final_batch := false;
              last_article_found := true; posts_processed := 0;
              batches_processed := 0 |}).
  vm_compute. reflexivity.
Defined.

(** ** [run] against an upstream with finitely many documents *)

Section Paged.

Variables (L : Lib) (docs : list document) (now batch : Z) (run_id : oid).
Variable la : option post_doc.
Hypothesis batch_positive : 0 < batch.

Lemma loop_ends (n : nat) :
  forall (rest : list document) (v : locals) (s : db),
  (length rest <= n)%nat ->
  0 <= request_offset v ->
  skipn (Z.to_nat (request_offset v)) docs = rest ->
  (final_batch v = true -> rest = []) ->
  fst (loop (paged_analyzer L docs now batch) (S n) run_id la v s) <> Ok None.
Proof.
  induction n as [|n IH]; intros rest v s Hlen Hoff Hskip Hfin;
    [|remember (S n) as k eqn:Ek];
    cbn [loop]; unfold bind at 1, lift at 1; rewrite paged_get;
    unfold bind at 1, lift at 1; cbn [json document_retrieval_batch_size paged_analyzer];
    rewrite Hskip.
  - destruct rest; [|simpl in Hlen; lia]. rewrite firstn_nil. cbn. discriminate.
  - subst k. destruct rest as [|d rest0].
    { rewrite firstn_nil. cbn. discriminate. }
    set (rest := d :: rest0) in *.
    set (page := firstn (Z.to_nat batch) rest).
    set (rest' := skipn (Z.to_nat batch) rest).
    assert (Hpage : Nat.eqb (length page) 0 = false).
    { apply Nat.eqb_neq. unfold page, rest. rewrite length_firstn. cbn [length]. lia. }
    assert (Hlen' : (length rest' <= n)%nat).
    { unfold rest', rest in *. rewrite length_skipn. cbn [length] in *. lia. }
    assert (Hnf : final_batch v = false).
    { destruct (final_batch v); [|reflexivity]. discriminate (Hfin eq_refl). }
    assert (Hnext : skipn (Z.to_nat (request_offset v + batch)) docs = rest').
    { rewrite (next_offset docs batch batch_positive) by assumption.
      rewrite Hskip. reflexivity. }
    rewrite Hpage, Hnf.
    destruct (Nat.eqb (length (filter no_posts page)) (length page)).
    + apply (IH rest'); [exact Hlen' | cbn [request_offset]; lia | exact Hnext |].
      cbn [final_batch]. destruct (Z.of_nat (length page) <? batch) eqn:El.
      * intros _. apply Z.ltb_lt in El.
        apply (short_page_is_last batch batch_positive rest El).
      * discriminate.
    + unfold bind at 1.
      match goal with
      | |- fst (let (_, _) := ?m s in _) <> _ => destruct (m s) as [[v1|e] s1] eqn:P
      end; [|cbn; discriminate].
      assert (O : request_offset v1 = request_offset v).
      { destruct la as [a|]; unfold bind in P.
        - destruct (resume_docs _ _ run_id _ _ s) as [[[fb found]|e] s2];
            [|discriminate].
          cbv beta iota in P. unfold ret in P. injection P as <- _. reflexivity.
        - destruct (save_docs _ run_id _ _ s) as [[m|e] s2]; [|discriminate].
          cbv beta iota in P. unfold ret in P. injection P as <- _. reflexivity. }
      destruct (final_batch v1) eqn:F; [cbn; discriminate|].
      apply (IH rest'); [exact Hlen' | | |].
      * cbn [request_offset]. lia.
      * cbn [request_offset]. rewrite O. exact Hnext.
      * cbn [final_batch]. discriminate.
Qed.

Lemma loop_skips_empty_documents (n : nat) :
  forall (rest : list document) (v : locals) (s : db),
  (length rest <= n)%nat ->
  0 <= request_offset v ->
  skipn (Z.to_nat (request_offset v)) docs = rest ->
  Forall (fun d => Posts d = []) rest ->
  exists v',
    loop (paged_analyzer L docs now batch) (S n) run_id la v s = (Ok (Some v'), s)
    /\ posts_processed v' = posts_processed v
    /\ last_article_found v' = last_article_found v
    /\ exists k, batches_processed v' = batches_processed v + k
                 /\ request_offset v' = request_offset v + k * batch
                 /\ Z.of_nat (length rest) <= k * batch < Z.of_nat (length rest) + batch.
Proof.
  induction n as [|n IH]; intros rest v s Hlen Hoff Hskip Hemp;
    [|remember (S n) as k eqn:Ek];
    cbn [loop]; unfold bind at 1, lift at 1; rewrite paged_get;
    unfold bind at 1, lift at 1; cbn [json document_retrieval_batch_size paged_analyzer];
    rewrite Hskip.
  - destruct rest; [|simpl in Hlen; lia]. rewrite firstn_nil. cbn [length Nat.eqb].
    exists v. repeat split. exists 0. cbn [length]. lia.
  - subst k. destruct rest as [|d rest0].
    { rewrite firstn_nil. cbn [length Nat.eqb].
      exists v. repeat split. exists 0. cbn [length]. lia. }
    set (rest := d :: rest0) in *.
    set (page := firstn (Z.to_nat batch) rest).
    set (rest' := skipn (Z.to_nat batch) rest).
    assert (Hpage : Nat.eqb (length page) 0 = false).
    { apply Nat.eqb_neq. unfold page, rest. rewrite length_firstn. cbn [length]. lia. }
    assert (Hlen' : (length rest' <= n)%nat).
    { unfold rest', rest in *. rewrite length_skipn. cbn [length] in *. lia. }
    assert (Hnext : skipn (Z.to_nat (request_offset v + batch)) docs = rest').
    { rewrite (next_offset docs batch batch_positive) by assumption.
      rewrite Hskip. reflexivity. }
    assert (Hsplit : rest = page ++ rest') by (symmetry; apply firstn_skipn).
    assert (Hemp' : Forall (fun d => Posts d = []) page
                    /\ Forall (fun d => Posts d = []) rest').
    { rewrite Hsplit in Hemp. apply Forall_app in Hemp. exact Hemp. }
    destruct Hemp' as [Hp Hr].
    assert (Hfill : Nat.eqb (length (filter no_posts page)) (length page) = true).
    { apply Nat.eqb_eq. f_equal. apply forallb_filter_id. apply forallb_forall.
      intros x Hx. rewrite Forall_forall in Hp. unfold no_posts.
      rewrite (Hp x Hx). reflexivity. }
    rewrite Hpage, Hfill.
    match goal with
    | |- context [loop _ _ _ _ ?v1 s] =>
        destruct (IH rest' v1 s Hlen') as (v' & E & P1 & P2 & k & K1 & K2 & K3);
          [cbn [request_offset]; lia | exact Hnext | exact Hr |]
    end.
    exists v'. split; [exact E|]. split; [exact P1|]. split; [exact P2|].
    exists (k + 1). cbn [batches_processed request_offset] in K1, K2.
    split; [lia|]. split; [lia|].
    assert (Hl : length rest' = (length rest - Z.to_nat batch)%nat).
    { unfold rest'. apply length_skipn. }
    assert (1 <= length rest)%nat by (unfold rest; cbn [length]; lia).
    destruct (Nat.le_gt_cases (Z.to_nat batch) (length rest)) as [Hge|Hlt].
    + assert (Z.of_nat (length rest') = Z.of_nat (length rest) - batch) by lia. nia.
    + assert (Z.of_nat (length rest') = 0) by lia.
      assert (k = 0) by nia. subst k. lia.
Qed.

End Paged.

(** X11.  Against an upstream that holds finitely many documents, with a
    positive batch size, the pagination loop of [run] comes to an end in
    either mode: given more iterations than there are documents, [run]
    returns or raises, it never runs on. *)
Theorem run_ends_on_finite_upstream (L : Lib) (docs : list document) (now batch : Z)
    (fuel : nat) (s : db) :
  0 < batch -> (length docs < fuel)%nat ->
  fst (run (paged_analyzer L docs now batch) fuel s) <> Ok None.
Proof.
  intros Hb Hf. destruct fuel as [|n]; [lia|].
  unfold run, run_body, bind, lift. rewrite paged_get.
  cbn [server_up paged_analyzer posts_find_one_sorted runs_insert_one].
  change (Build_MediaAnalyzer L (paged docs) true now batch)
    with (paged_analyzer L docs now batch).
  match goal with
  | |- context [loop _ (S n) ?i ?la ?v0 ?s1] =>
      pose proof (loop_ends L docs now batch i la Hb n docs v0 s1) as K;
      destruct (loop (paged_analyzer L docs now batch) (S n) i la v0 s1)
        as [[[w|]|e] s2]
  end; cbn [fst] in *; try discriminate.
  apply K; [lia | cbn; lia | reflexivity | cbn; discriminate].
Qed.

Lemma run_ends_on_finite_upstream_witness :
  fst (run (paged_analyzer Demo.lib page_three_posts 0 1) 2
         (snd (__init__ Demo.empty_db))) <> Ok None.
Proof.
  apply run_ends_on_finite_upstream; [reflexivity | cbn; lia].
Defined.

(** X12.  Against an upstream whose documents all are without posts, in
    either mode and on any store: [run] returns, the database gains the run
    record and nothing else, no post is counted, and [batches_processed] is
    the number of pages that hold a document (the least [k] with
    [k * batch] at least the number of documents), the offset reached being
    [k * batch]. *)
Theorem run_skips_empty_documents (L : Lib) (docs : list document) (now batch : Z)
    (s : db) :
  0 < batch -> Forall (fun d => Posts d = []) docs ->
  exists v,
    run (paged_analyzer L docs now batch) (S (length docs)) s
    = (Ok (Some v), snd (runs_insert_one now s))
    /\ posts_processed v = 0
    /\ request_offset v = batches_processed v * batch
    /\ Z.of_nat (length docs) <= batches_processed v * batch
       < Z.of_nat (length docs) + batch.
Proof.
  intros Hb He. unfold run, run_body, bind, lift. rewrite paged_get.
  cbn [server_up paged_analyzer posts_find_one_sorted].
  change (Build_MediaAnalyzer L (paged docs) true now batch)
    with (paged_analyzer L docs now batch).
  change (runs_insert_one (utcnow (paged_analyzer L docs now batch)) s)
    with (Ok (db_next s), snd (runs_insert_one now s)).
  cbv iota beta.
  match goal with
  | |- context [loop _ _ ?i ?la ?v0 ?s1] =>
      destruct (loop_skips_empty_documents L docs now batch i la Hb (length docs)
                  docs v0 s1) as (v & E & P1 & _ & k & K1 & K2 & K3);
        [lia | cbn; lia | reflexivity | exact He |]
  end.
  rewrite E. exists v. split; [reflexivity|].
  cbn [posts_processed batches_processed request_offset] in P1, K1, K2.
  split; [exact P1|]. replace (batches_processed v) with k by lia.
  split; [lia | exact K3].
Qed.

Lemma run_skips_empty_documents_witness :
  exists v,
    run (paged_analyzer Demo.lib
           [{| StartPostId := "a"; Posts := [] |}; {| StartPostId := "b"; Posts := [] |};
            {| StartPostId := "c"; Posts := [] |}] 0 2) 4 store_42
    = (Ok (Some v), snd (runs_insert_one 0 store_42))
    /\ batches_processed v = 2.
Proof.
  destruct (run_skips_empty_documents Demo.lib
              [{| StartPostId := "a"; Posts := [] |}; {| StartPostId := "b"; Posts := [] |};
               {| StartPostId := "c"; Posts := [] |}] 0 2 store_42)
    as (v & E & _ & _ & K).
  - reflexivity.
  - repeat constructor.
  - exists v. split; [exact E|]. cbn [length] in K. lia.
Defined.

(** ** [__init__] and undecodable media *)

(** X13.  [__init__] never resets the counter: a database that has one is
    left exactly as it is, a database without one gets the counter 1, and a
    second construction changes nothing. *)
Theorem init_never_resets_counter (s : db) :
  (forall v, db_Counter s = Some v -> __init__ s = (Ok tt, s))
  /\ (db_Counter s = None -> __init__ s = (Ok tt, set_Counter s (Some 1)))
  /\ __init__ (snd (__init__ s)) = (Ok tt, snd (__init__ s)).
Proof.
  unfold __init__, bind, counter_find_one, counter_insert_one. split; [|split].
  - intros v H. rewrite H. reflexivity.
  - intros H. rewrite H. cbv iota beta. rewrite H. reflexivity.
  - destruct (db_Counter s) as [v|] eqn:E; cbv iota beta.
    + cbn [ret snd]. rewrite E. reflexivity.
    + rewrite E. cbn [snd set_Counter db_Counter]. reflexivity.
Qed.

(** X14.  A post whose media cannot be read, on either path.  When
    [base64.b64decode] raises, its [binascii.Error] leaves the path before
    anything is written; so does the [cv2.error] (or whatever else) that
    [cv2.imdecode] raises, as it does on an empty buffer.  When
    [cv2.imdecode] returns [None], for bytes that are no image, the bytes
    are put into GridFS all the same and [AttributeError] is raised
    afterwards (at [im.shape]): the file stays, no record is inserted and
    the counter is not touched.  A post with empty media is of the second
    kind with the stand-in library. *)
Theorem unreadable_media (self : MediaAnalyzer) (run : oid) (p : post) (s : db) :
  (b64decode (lib self) (MediaData p) = None ->
   save_post self run p s = (Raise BinasciiError, s)
   /\ detect self run p s = (Raise BinasciiError, s))
  /\ (forall d e, b64decode (lib self) (MediaData p) = Some d ->
      imdecode (lib self) d = Raise e ->
      save_post self run p s = (Raise e, s)
      /\ detect self run p s = (Raise e, s))
  /\ (forall d, b64decode (lib self) (MediaData p) = Some d ->
      imdecode (lib self) d = Ok None ->
      save_post self run p s = (Raise AttributeError, snd (gridfs_put d s))
      /\ detect self run p s = (Raise AttributeError, snd (gridfs_put d s)))
  /\ save_post (Demo.analyzer [] 5) 9%nat {| ArticleId := "a"; MediaData := EmptyString |}
       store_one_pixel
     = (Raise CvError, store_one_pixel).
Proof.
  split; [|split; [|split; [|reflexivity]]].
  - intros H. unfold save_post, detect, bind, lift. rewrite H. split; reflexivity.
  - intros d e Hd Him. unfold save_post, detect, bind, lift. rewrite Hd.
    cbn [of_option]. rewrite Him. split; reflexivity.
  - intros d Hd Him. unfold save_post, detect, bind, lift. rewrite Hd.
    cbn [of_option]. rewrite Him. cbn [gridfs_put counter_find_one attr_shape snd].
    split; [|reflexivity].
    unfold gridfs_put. cbn [snd db_Counter]. destruct (db_Counter s); reflexivity.
Qed.

(** ** The counter in resume mode *)

Lemma keeps_bind {A B C : Type} (f : db -> C) (m : M A) (k : A -> M B) :
  keeps f m -> (forall a, keeps f (k a)) -> keeps f (bind m k).
Proof.
  intros Hm Hk s. unfold bind. specialize (Hm s).
  destruct (m s) as [[a|e] s1]; cbn [snd] in *.
  - rewrite Hk. exact Hm.
  - exact Hm.
Qed.

Ltac keeps_counter_step :=
  match goal with
  | |- keeps _ (bind _ _) => apply keeps_bind; [|intros]
  | |- keeps _ (ret _) => intros ?; reflexivity
  | |- keeps _ (raise _) => intros ?; reflexivity
  | |- keeps _ (lift _) => intros ?; reflexivity
  | |- keeps _ (gridfs_put _) => intros ?; reflexivity
  | |- keeps _ (gridfs_get _) => intros ?; reflexivity
  | |- keeps _ posts_find => intros ?; reflexivity
  | |- keeps _ (posts_insert_one _) => intros ?; reflexivity
  | |- keeps _ (posts_replace_one _ _) => intros ?; reflexivity
  | |- keeps _ (if ?b then _ else _) => destruct b
  | |- keeps _ (match ?x with Some _ => _ | None => _ end) => destruct x
  | |- keeps _ (let (_, _) := ?p in _) => destruct p
  end.

Lemma detect_keeps_counter (self : MediaAnalyzer) (run : oid) (p : post) :
  keeps db_Counter (detect self run p).
Proof.
  assert (C : forall pp st, keeps db_Counter (compare self pp st)).
  { intros pp [md im]. unfold compare.
    repeat first [progress unfold classify | keeps_counter_step]. }
  assert (S : forall pps st, keeps db_Counter (scan self pps st)).
  { induction pps as [|pp pps IH]; intros st; cbn [scan].
    - keeps_counter_step.
    - apply keeps_bind; [apply C | exact IH]. }
  unfold detect. repeat first [apply S | keeps_counter_step].
Qed.

Lemma resume_docs_keeps_counter (self : MediaAnalyzer) (last : string) (run : oid)
    (docs : list document) :
  forall flags, keeps db_Counter (resume_docs self last run docs flags).
Proof.
  assert (P : forall ps, keeps db_Counter (resume_posts self last run ps)).
  { induction ps as [|p ps IH]; cbn [resume_posts].
    - keeps_counter_step.
    - keeps_counter_step; [keeps_counter_step|].
      apply keeps_bind; [apply detect_keeps_counter | intros; exact IH]. }
  induction docs as [|doc ds IH]; intros flags; cbn [resume_docs].
  - keeps_counter_step.
  - keeps_counter_step; [keeps_counter_step|].
    apply keeps_bind; [apply P | intros; apply IH].
Qed.

Lemma resume_loop_keeps_counter (self : MediaAnalyzer) (run : oid) (la : post_doc)
    (fuel : nat) :
  forall v, keeps db_Counter (loop self fuel run (Some la) v).
Proof.
  induction fuel as [|fuel IH]; intros v; cbn [loop].
  - keeps_counter_step.
  - apply keeps_bind; [keeps_counter_step | intros resp].
    apply keeps_bind; [keeps_counter_step | intros documents].
    keeps_counter_step; [keeps_counter_step|].
    keeps_counter_step; [apply IH|].
    apply keeps_bind.
    + apply keeps_bind; [apply resume_docs_keeps_counter|].
      intros [fb found]. keeps_counter_step.
    + intros v'. keeps_counter_step; [keeps_counter_step | apply IH].
Qed.

Lemma first_sorted_none (l : list post_doc) : first_sorted l = None -> l = [].
Proof.
  destruct l as [|x l]; [reflexivity|]. cbn [first_sorted].
  destruct (first_sorted l) as [y|]; [|discriminate].
  destruct (order_leb _ _); discriminate.
Qed.

(** X15.  The counter belongs to save-all mode: a run on a database that
    holds a post (resume mode) leaves the counter exactly as it was,
    however the run ends. *)
Theorem resume_run_keeps_counter (self : MediaAnalyzer) (fuel : nat) (s : db) :
  db_Posts s <> [] -> db_Counter (snd (run self fuel s)) = db_Counter s.
Proof.
  intros Hne. unfold run, run_body, bind, lift.
  destruct (get_checked self 1 0) as [r|e]; [|reflexivity].
  destruct (server_up self); [|reflexivity].
  cbn [posts_find_one_sorted runs_insert_one].
  destruct (first_sorted (db_Posts s)) as [la|] eqn:F.
  - match goal with
    | |- context [loop self fuel ?i (Some la) ?v0 ?s1] =>
        pose proof (resume_loop_keeps_counter self i la fuel v0 s1) as K;
        destruct (loop self fuel i (Some la) v0 s1) as [[w|e] s2]
    end; exact K.
  - apply first_sorted_none in F. contradiction.
Qed.

Lemma resume_run_keeps_counter_witness :
  length (db_Posts (snd (run (Demo.analyzer page_new_then_o1 5) 3 store_one_pixel))) = 2%nat
  /\ db_Counter (snd (run (Demo.analyzer page_new_then_o1 5) 3 store_one_pixel))
     = db_Counter store_one_pixel.
Proof.
  split; [vm_compute; reflexivity|].
  apply resume_run_keeps_counter. vm_compute. discriminate.
Defined.

(** ** What [run] leaves of the store that it finds *)

Lemma extends_refl (s : db) : extends s s.
Proof.
  repeat split; try (exists []; rewrite app_nil_r; reflexivity). apply Nat.le_refl.
Qed.

Lemma extends_trans (s1 s2 s3 : db) : extends s1 s2 -> extends s2 s3 -> extends s1 s3.
Proof.
  intros ((n1 & P1) & (f1 & F1) & L1) ((n2 & P2) & (f2 & F2) & L2). repeat split.
  - exists (n1 ++ n2). rewrite P2, P1, app_assoc. reflexivity.
  - exists (f1 ++ f2). rewrite F2, F1, app_assoc. reflexivity.
  - eapply Nat.le_trans; eassumption.
Qed.

Lemma map_id_sans (l : list post_doc) : map _id (map sans_Reposts l) = map _id l.
Proof. rewrite map_map. apply map_ext. intros d. reflexivity. Qed.

Lemma well_formed_view (s s' : db) :
  map sans_Reposts (db_Posts s') = map sans_Reposts (db_Posts s) ->
  db_next s' = db_next s -> well_formed s -> well_formed s'.
Proof.
  intros P N [D F]. unfold well_formed.
  rewrite <- (map_id_sans (db_Posts s')), P, map_id_sans, N. split; assumption.
Qed.

Lemma grows_bind {A B : Type} (m : M A) (k : A -> M B) :
  grows m -> (forall a, grows (k a)) -> grows (bind m k).
Proof.
  intros Hm Hk s W. unfold bind. destruct (Hm s W) as [W1 E1].
  destruct (m s) as [[a|e] s1]; cbn [snd] in *.
  - destruct (Hk a s1 W1) as [W2 E2]. split; [exact W2|].
    eapply extends_trans; eassumption.
  - split; assumption.
Qed.

Lemma grows_same {A : Type} (m : M A) : (forall s, snd (m s) = s) -> grows m.
Proof. intros H s W. rewrite H. split; [exact W | apply extends_refl]. Qed.

Lemma grows_counter {A : Type} (m : M A) :
  (forall s, exists c, snd (m s) = set_Counter s c) -> grows m.
Proof.
  intros H s W. destruct (H s) as [c ->]. split; [exact W|].
  repeat split; cbn; try (exists []; rewrite app_nil_r; reflexivity). apply Nat.le_refl.
Qed.

Lemma gridfs_put_grows (d : list byte) : grows (gridfs_put d).
Proof.
  intros s [D F]. unfold gridfs_put. cbn [snd]. split.
  - split; cbn [db_Posts db_next]; [exact D|].
    eapply Forall_impl; [|exact F]. cbn. intros i H. apply Nat.lt_lt_succ_r. exact H.
  - repeat split; cbn [db_Posts db_fs db_next].
    + exists []. rewrite app_nil_r. reflexivity.
    + eexists. reflexivity.
    + apply Nat.le_succ_diag_r.
Qed.

Lemma posts_insert_one_grows (md : fields) : grows (posts_insert_one md).
Proof.
  intros s [D F]. unfold posts_insert_one. cbn [snd]. split.
  - split; cbn [db_Posts db_next]; rewrite map_app; cbn [map _id].
    + apply NoDup_app; [exact D | repeat constructor; intros [] | ].
      intros i Hi [<- | []]. rewrite Forall_forall in F.
      exact (Nat.lt_irrefl _ (F _ Hi)).
    + apply Forall_app. split.
      * eapply Forall_impl; [|exact F]. cbn. intros i H. apply Nat.lt_lt_succ_r. exact H.
      * repeat constructor.
  - repeat split; cbn [db_Posts db_fs db_next].
    + rewrite map_app. eexists. reflexivity.
    + exists []. rewrite app_nil_r. reflexivity.
    + apply Nat.le_succ_diag_r.
Qed.

Lemma runs_insert_one_grows (start : Z) : grows (runs_insert_one start).
Proof.
  intros s [D F]. unfold runs_insert_one. cbn [snd]. split.
  - split; cbn [db_Posts db_next]; [exact D|].
    eapply Forall_impl; [|exact F]. cbn. intros i H. apply Nat.lt_lt_succ_r. exact H.
  - repeat split; cbn [db_Posts db_fs db_next];
      try (exists []; rewrite app_nil_r; reflexivity).
    apply Nat.le_succ_diag_r.
Qed.

(** Replacing a stored post by itself with another [Reposts] list. *)
Lemma replace_first_sans (pp : post_doc) (r : list evidence) (l : list post_doc) :
  NoDup (map _id l) ->
  In (sans_Reposts pp) (map sans_Reposts l) ->
  map sans_Reposts (replace_first (_id pp) (with_Reposts pp r) l) = map sans_Reposts l.
Proof.
  induction l as [|x l IH]; intros D H; [reflexivity|].
  cbn [replace_first]. inversion D as [|? ? Hx D']; subst.
  destruct (Nat.eqb (_id x) (_id pp)) eqn:E; cbn [map].
  - apply Nat.eqb_eq in E. f_equal. destruct H as [H | H]; [symmetry; exact H|].
    exfalso. apply Hx. rewrite E, <- map_id_sans.
    change (_id pp) with (_id (sans_Reposts pp)). apply in_map. exact H.
  - f_equal. apply IH; [exact D'|]. destruct H as [H | H]; [|exact H].
    apply Nat.eqb_neq in E. exfalso. apply E.
    change (_id (sans_Reposts x) = _id (sans_Reposts pp)). rewrite H. reflexivity.
Qed.

Lemma keeps_stored_bind {A B : Type} (pp : post_doc) (m : M A) (k : A -> M B) :
  keeps_stored pp m -> (forall a, keeps_stored pp (k a)) -> keeps_stored pp (bind m k).
Proof.
  intros Hm Hk s D H. unfold bind. specialize (Hm s D H).
  destruct (m s) as [[a|e] s1]; cbn [snd] in *; [|exact Hm].
  rewrite <- Hm. injection Hm as H1 H2 H3. apply Hk.
  - rewrite <- map_id_sans, H1, map_id_sans. exact D.
  - rewrite H1. exact H.
Qed.

Lemma keeps_stored_same {A : Type} (pp : post_doc) (m : M A) :
  (forall s, snd (m s) = s) -> keeps_stored pp m.
Proof. intros E s _ _. rewrite E. reflexivity. Qed.

Lemma replace_keeps_stored (pp : post_doc) (l : list evidence) :
  keeps_stored pp (posts_replace_one (_id pp) (with_Reposts pp l)).
Proof.
  intros s D H. unfold posts_replace_one, stored. cbn [snd set_Posts db_Posts db_fs db_next].
  rewrite replace_first_sans by assumption. reflexivity.
Qed.

Ltac keeps_stored_step :=
  match goal with
  | |- keeps_stored _ (bind _ _) => apply keeps_stored_bind; [|intros]
  | |- keeps_stored _ (posts_replace_one _ _) => apply replace_keeps_stored
  | |- keeps_stored _ (if ?b then _ else _) => destruct b
  | |- keeps_stored _ (match ?x with Some _ => _ | None => _ end) => destruct x
  | |- keeps_stored _ (let (_, _) := ?p in _) => destruct p
  | |- keeps_stored _ _ => apply keeps_stored_same; reflexivity
  end.

Lemma compare_keeps_stored (self : MediaAnalyzer) (pp : post_doc)
    (st : fields * option ndarray) :
  keeps_stored pp (compare self pp st).
Proof.
  destruct st as [md im]. unfold compare.
  repeat first [progress unfold classify | keeps_stored_step].
Qed.

Lemma scan_keeps_stored (self : MediaAnalyzer) (pps : list post_doc) :
  forall st s,
  NoDup (map _id (db_Posts s)) ->
  Forall (fun pp => In (sans_Reposts pp) (map sans_Reposts (db_Posts s))) pps ->
  stored (snd (scan self pps st s)) = stored s.
Proof.
  induction pps as [|pp pps IH]; intros st s D H; cbn [scan].
  - reflexivity.
  - inversion H as [|? ? Hpp Hrest]; subst. unfold bind.
    pose proof (compare_keeps_stored self pp st s D Hpp) as C.
    destruct (compare self pp st s) as [[st'|e] s1]; cbn [snd] in *; [|exact C].
    rewrite <- C. injection C as C1 C2 C3. apply IH.
    + rewrite <- map_id_sans, C1, map_id_sans. exact D.
    + rewrite C1. exact Hrest.
Qed.

Lemma scan_grows (self : MediaAnalyzer) (st : fields * option ndarray) (s : db) :
  well_formed s ->
  well_formed (snd (scan self (db_Posts s) st s))
  /\ extends s (snd (scan self (db_Posts s) st s)).
Proof.
  intros W. assert (V : stored (snd (scan self (db_Posts s) st s)) = stored s).
  { apply scan_keeps_stored; [apply W|].
    apply Forall_forall. intros pp Hpp. apply in_map. exact Hpp. }
  injection V as V1 V2 V3.
  split; [apply (well_formed_view s); assumption|].
  repeat split.
  - exists []. rewrite app_nil_r. exact V1.
  - exists []. rewrite app_nil_r. exact V2.
  - rewrite V3. apply Nat.le_refl.
Qed.

Ltac grows_step :=
  match goal with
  | |- grows (bind _ _) => apply grows_bind; [|intros]
  | |- grows (ret _) => apply grows_same; reflexivity
  | |- grows (raise _) => apply grows_same; reflexivity
  | |- grows (lift _) => apply grows_same; reflexivity
  | |- grows (gridfs_put _) => apply gridfs_put_grows
  | |- grows counter_find_one => apply grows_same; reflexivity
  | |- grows counter_inc => apply grows_counter; intros; eexists; reflexivity
  | |- grows (posts_insert_one _) => apply posts_insert_one_grows
  | |- grows (if ?b then _ else _) => destruct b
  | |- grows (match ?x with Some _ => _ | None => _ end) => destruct x
  | |- grows (let (_, _) := ?p in _) => destruct p
  end.

Lemma find_scan_grows (self : MediaAnalyzer) {B : Type} (st : fields * option ndarray)
    (k : fields * option ndarray -> M B) :
  (forall st', grows (k st')) ->
  grows (bind posts_find (fun pps => bind (scan self pps st) k)).
Proof.
  intros Hk s W. unfold bind at 1, posts_find. cbv beta iota.
  destruct (scan_grows self st s W) as [W1 E1]. unfold bind.
  destruct (scan self (db_Posts s) st s) as [[st'|e] s1]; cbn [snd] in *.
  - destruct (Hk st' s1 W1) as [W2 E2]. split; [exact W2|].
    eapply extends_trans; eassumption.
  - split; assumption.
Qed.

Lemma detect_grows (self : MediaAnalyzer) (run : oid) (p : post) :
  grows (detect self run p).
Proof.
  unfold detect. do 4 (grows_step; [grows_step|]).
  apply find_scan_grows. intros [md im]. repeat grows_step.
Qed.

Lemma save_post_grows (self : MediaAnalyzer) (run : oid) (p : post) :
  grows (save_post self run p).
Proof. unfold save_post. repeat grows_step. Qed.

Lemma save_docs_grows (self : MediaAnalyzer) (run : oid) (docs : list document) :
  forall n, grows (save_docs self run docs n).
Proof.
  assert (P : forall ps n, grows (save_posts self run ps n)).
  { induction ps as [|p ps IH]; intros n; cbn [save_posts].
    - grows_step.
    - apply grows_bind; [apply save_post_grows | intros; apply IH]. }
  induction docs as [|doc ds IH]; intros n; cbn [save_docs].
  - grows_step.
  - apply grows_bind; [apply P | exact IH].
Qed.

Lemma resume_docs_grows (self : MediaAnalyzer) (last : string) (run : oid)
    (docs : list document) :
  forall flags, grows (resume_docs self last run docs flags).
Proof.
  assert (P : forall ps, grows (resume_posts self last run ps)).
  { induction ps as [|p ps IH]; cbn [resume_posts].
    - grows_step.
    - grows_step; [grows_step|].
      apply grows_bind; [apply detect_grows | intros; exact IH]. }
  induction docs as [|doc ds IH]; intros flags; cbn [resume_docs].
  - grows_step.
  - grows_step; [grows_step|].
    apply grows_bind; [apply P | intros; apply IH].
Qed.

Lemma loop_grows (self : MediaAnalyzer) (run : oid) (la : option post_doc) (fuel : nat) :
  forall v, grows (loop self fuel run la v).
Proof.
  induction fuel as [|fuel IH]; intros v; cbn [loop].
  - grows_step.
  - apply grows_bind; [grows_step | intros resp].
    apply grows_bind; [grows_step | intros documents].
    grows_step; [grows_step|]. grows_step; [apply IH|].
    apply grows_bind.
    + destruct la as [a|].
      * apply grows_bind; [apply resume_docs_grows|]. intros [fb found]. grows_step.
      * apply grows_bind; [apply save_docs_grows|]. intros n. grows_step.
    + intros v'. grows_step; [grows_step | apply IH].
Qed.

Lemma run_body_grows (self : MediaAnalyzer) (fuel : nat) : grows (run_body self fuel).
Proof.
  unfold run_body. do 2 (grows_step; [grows_step|]).
  apply grows_bind; [apply grows_same; reflexivity | intros la].
  apply grows_bind; [apply runs_insert_one_grows | intros i]. apply loop_grows.
Qed.

Lemma run_body_grows_extends (self : MediaAnalyzer) (fuel : nat) (s : db) :
  well_formed s -> extends s (snd (run self fuel s)).
Proof.
  intros W. assert (E : snd (run self fuel s) = snd (run_body self fuel s)).
  { unfold run. destruct (run_body self fuel s) as [[v|e] s']; reflexivity. }
  rewrite E. apply run_body_grows. exact W.
Qed.

(** X18.  [run] only adds to a well-formed store, however it ends: the
    posts that were stored are still there, in their order and unchanged but
    for their [Reposts] lists, with the new posts after them; the GridFS files
    are still there, unchanged, with the new files after them; and the store
    is well formed again. *)
Theorem run_only_appends (self : MediaAnalyzer) (fuel : nat) (s : db) :
  well_formed s ->
  well_formed (snd (run self fuel s)) /\ extends s (snd (run self fuel s)).
Proof.
  intros W. assert (E : snd (run self fuel s) = snd (run_body self fuel s)).
  { unfold run. destruct (run_body self fuel s) as [[v|e] s']; reflexivity. }
  rewrite E. apply run_body_grows. exact W.
Qed.

Lemma run_only_appends_witness :
  well_formed (snd (run (Demo.analyzer page_new_then_o1 5) 3 store_one_pixel))
  /\ extends store_one_pixel
       (snd (run (Demo.analyzer page_new_then_o1 5) 3 store_one_pixel)).
Proof.
  apply run_only_appends. split.
  - vm_compute. repeat constructor; intros [].
  - vm_compute. repeat constructor.
Defined.

(** ** The record and the file of a post *)

Lemma find_fresh (n : oid) (d : list byte) (l : list (oid * list byte)) :
  Forall (fun f => (fst f < n)%nat) l ->
  find (fun f => Nat.eqb (fst f) n) (l ++ [(n, d)]) = Some (n, d).
Proof.
  induction 1 as [|x l Hx _ IH]; cbn [app find fst].
  - rewrite Nat.eqb_refl. reflexivity.
  - destruct (Nat.eqb (fst x) n) eqn:E; [|exact IH].
    apply Nat.eqb_eq in E. rewrite E in Hx. destruct (Nat.lt_irrefl _ Hx).
Qed.

Lemma same_but_verdict_refl (md : fields) : same_but_verdict md md.
Proof. repeat split. Qed.

(** The corpus loop touches neither the files nor the fields of [md] other
    than [IsOriginal], [RepostOff] and [Reposts]. *)
Lemma scan_same_but_verdict (self : MediaAnalyzer) (F : list (oid * list byte)) (N : oid)
    (pps : list post_doc) :
  forall st,
  maintains (fun s => db_fs s = F /\ db_next s = N) (scan self pps st)
    (fun st' => same_but_verdict (fst st) (fst st')).
Proof.
  assert (C : forall pp st,
             maintains (fun s => db_fs s = F /\ db_next s = N) (compare self pp st)
               (fun st' => same_but_verdict (fst st) (fst st'))).
  { intros pp [md im]. cbn [fst]. unfold compare.
    eapply maintains_bind; [apply maintains_any|]. intros mid _.
    eapply maintains_bind with (Q := fun _ => True); [intros s Hs; split; [exact Hs|auto]|].
    intros buff _.
    eapply maintains_bind; [apply maintains_any|]. intros decoded _.
    eapply maintains_bind; [apply maintains_any|]. intros [im1 im0] _.
    eapply maintains_bind; [apply maintains_any|]. intros skip _.
    destruct skip; [apply maintains_ret; apply same_but_verdict_refl|].
    destruct im1 as [a|]; [|apply maintains_raise].
    destruct im0 as [b|]; [|apply maintains_raise].
    eapply maintains_bind; [apply maintains_any|]. intros mse _.
    eapply maintains_bind; [apply maintains_any|]. intros ss _.
    eapply maintains_bind; [apply maintains_any|]. intros hs _.
    eapply maintains_bind with (Q := same_but_verdict md);
      [|intros md' Hmd'; apply maintains_ret; exact Hmd'].
    unfold classify.
    destruct (hs =? 0); [|apply maintains_ret; apply same_but_verdict_refl].
    destruct (PrimFloat.leb 0.75 ss); [|apply maintains_ret; apply same_but_verdict_refl].
    destruct (negb (PrimFloat.leb 2000 mse) && md_IsOriginal (body pp));
      [|apply maintains_ret; apply same_but_verdict_refl].
    eapply maintains_bind; [apply maintains_any|]. intros l _.
    eapply maintains_bind with (Q := fun _ => True); [intros s Hs; split; [exact Hs|auto]|].
    intros _ _. apply maintains_ret. repeat split. }
  induction pps as [|pp pps IH]; intros st; cbn [scan].
  - apply maintains_ret. apply same_but_verdict_refl.
  - eapply maintains_bind; [apply C|]. intros st' H1.
    intros s Hs. destruct (IH st' s Hs) as [H2 H3]. split; [exact H2|].
    intros st'' E. specialize (H3 st'' E).
    destruct H1 as (A1 & A2 & A3 & A4 & A5 & A6 & A7).
    destruct H3 as (B1 & B2 & B3 & B4 & B5 & B6 & B7).
    repeat split; congruence.
Qed.

(** What a detection that returns has done to the store. *)
Lemma detect_inserts (self : MediaAnalyzer) (run : oid) (p : post) (s s' : db) :
  detect self run p s = (Ok tt, s') ->
  exists d older rec,
    b64decode (lib self) (MediaData p) = Some d
    /\ db_Posts s' = older ++ [rec]
    /\ db_fs s' = db_fs s ++ [(db_next s, d)]
    /\ md_ArticleId (body rec) = ArticleId p /\ md_RunId (body rec) = run
    /\ md_MediaId (body rec) = Some (db_next s) /\ md_Media (body rec) = None
    /\ md_OrderNum (body rec) = None.
Proof.
  intros H. unfold detect in H. unfold bind at 1, lift at 1 in H.
  destruct (b64decode (lib self) (MediaData p)) as [d|]; [|discriminate].
  cbn [of_option] in H. unfold bind at 1, lift at 1 in H.
  destruct (imdecode (lib self) d) as [im|]; [|discriminate].
  unfold bind at 1, gridfs_put at 1 in H.
  unfold bind at 1, lift at 1 in H.
  destruct (attr_shape im) as [dim|]; [|discriminate].
  unfold bind at 1, posts_find at 1 in H. cbn [db_Posts] in H.
  unfold bind at 1 in H.
  match type of H with
  | context [scan self ?pps ?st ?s1] =>
      destruct (scan_same_but_verdict self (db_fs s1) (db_next s1) pps st s1
                  (conj eq_refl eq_refl)) as [[K1 K2] K3];
      destruct (scan self pps st s1) as [[[md' im']|e] s2]; [|discriminate]
  end.
  specialize (K3 _ eq_refl). cbn [fst snd db_fs db_next] in K1, K2, K3.
  destruct K3 as (A1 & A2 & A3 & A4 & A5 & A6 & A7).
  cbn [md_ArticleId md_OrderNum md_RunId md_Media md_MediaId] in *.
  unfold bind, posts_insert_one, ret in H. injection H as <-.
  exists d, (db_Posts s2). eexists.
  split; [reflexivity|]. cbn [db_Posts db_fs]. split; [reflexivity|].
  cbn [body]. repeat split; assumption.
Qed.

(** X19.  The record and the file of a post that is taken in.  On the
    save-all path the new record is the last of [Posts], carries the article
    id of the post and the run, and its key [Media] names a file that reads
    back as the decoded media; it has no key [MediaId].  On the detection
    path the same holds with the keys exchanged: the file is under [MediaId],
    there is no key [Media], and the record has no [OrderNum]. *)
Theorem stored_media_reads_back (self : MediaAnalyzer) (run : oid) (p : post) (s s' : db) :
  files_older s ->
  (save_post self run p s = (Ok tt, s') ->
   exists d rec i,
     b64decode (lib self) (MediaData p) = Some d
     /\ db_Posts s' = db_Posts s ++ [rec]
     /\ md_ArticleId (body rec) = ArticleId p /\ md_RunId (body rec) = run
     /\ md_Media (body rec) = Some i /\ md_MediaId (body rec) = None
     /\ fst (gridfs_get i s') = Ok d)
  /\ (detect self run p s = (Ok tt, s') ->
      exists d older rec i,
        b64decode (lib self) (MediaData p) = Some d
        /\ db_Posts s' = older ++ [rec]
        /\ md_ArticleId (body rec) = ArticleId p /\ md_RunId (body rec) = run
        /\ md_MediaId (body rec) = Some i /\ md_Media (body rec) = None
        /\ md_OrderNum (body rec) = None
        /\ fst (gridfs_get i s') = Ok d).
Proof.
  intros Hf. split; intros H.
  - unfold save_post, bind, lift in H.
    destruct (b64decode (lib self) (MediaData p)) as [d|]; [|discriminate].
    cbn [of_option] in H.
    destruct (imdecode (lib self) d) as [im|]; [|discriminate].
    cbn [gridfs_put counter_find_one db_Counter] in H.
    destruct (db_Counter s) as [c|]; [|discriminate]. cbn [of_option] in H.
    destruct (attr_shape im) as [dim|]; [|discriminate].
    cbn [posts_insert_one counter_inc] in H. injection H as <-.
    exists d. eexists. exists (db_next s). split; [reflexivity|].
    cbn [db_Posts set_Counter]. split; [reflexivity|].
    cbn [body md_ArticleId md_RunId md_Media md_MediaId]. repeat split.
    unfold gridfs_get. cbn [fst db_fs set_Counter]. rewrite (find_fresh _ _ _ Hf).
    reflexivity.
  - destruct (detect_inserts self run p s s' H)
      as (d & older & rec & Hd & HP & HF & H1 & H2 & H3 & H4 & H5).
    exists d, older, rec, (db_next s). repeat split; try assumption.
    unfold gridfs_get. cbn [fst]. rewrite HF, (find_fresh _ _ _ Hf). reflexivity.
Qed.

Lemma stored_media_reads_back_witness :
  exists s',
    save_post (Demo.analyzer [] 5) 9%nat (sample_post "a" [[5]]) store_one_pixel
    = (Ok tt, s')
    /\ exists d rec i,
         b64decode Demo.lib (MediaData (sample_post "a" [[5]])) = Some d
         /\ db_Posts s' = db_Posts store_one_pixel ++ [rec]
         /\ md_ArticleId (body rec) = ArticleId (sample_post "a" [[5]])
         /\ md_RunId (body rec) = 9%nat
         /\ md_Media (body rec) = Some i /\ md_MediaId (body rec) = None
         /\ fst (gridfs_get i s') = Ok d.
Proof.
  eexists. split; [vm_compute; reflexivity|].
  refine (proj1 (stored_media_reads_back (Demo.analyzer [] 5) 9%nat
                   (sample_post "a" [[5]]) store_one_pixel _ _) _).
  - repeat constructor.
  - vm_compute. reflexivity.
Defined.

(** ** The article that the next run resumes from *)

Lemma first_sorted_no_OrderNum (l : list post_doc) :
  Exists (fun x => md_OrderNum (body x) = None) l ->
  exists la, first_sorted l = Some la /\ md_OrderNum (body la) = None.
Proof.
  induction l as [|x l IH]; intros H; [inversion H|]. cbn [first_sorted].
  destruct (first_sorted l) as [y|] eqn:E.
  - inversion H as [? ? Hx | ? ? Hl]; subst.
    + rewrite Hx. cbn [order_leb]. eauto.
    + destruct (IH Hl) as (la & Hla & Ho). injection Hla as <-.
      rewrite Ho. destruct (md_OrderNum (body x)) eqn:Ex; cbn [order_leb]; eauto.
  - apply first_sorted_none in E. subst l.
    inversion H as [? ? Hx | ? ? Hl]; subst; [eauto | inversion Hl].
Qed.

(** X20.  The detection path gives its records no [OrderNum].  Hence, once
    a detection has stored a post, the article that a run resumes from, the
    first of [Posts] by ascending [OrderNum], is a record without
    [OrderNum], in that store and in every store that extends it. *)
Theorem detect_anchors_later_runs (self : MediaAnalyzer) (run : oid) (p : post)
    (s s1 s2 : db) :
  detect self run p s = (Ok tt, s1) ->
  extends s1 s2 ->
  exists la, fst (posts_find_one_sorted s2) = Ok (Some la)
             /\ md_OrderNum (body la) = None.
Proof.
  intros H ((new & E) & _).
  destruct (detect_inserts self run p s s1 H)
    as (d & older & rec & _ & HP & _ & _ & _ & _ & _ & Ho).
  destruct (first_sorted_no_OrderNum (db_Posts s2)) as (la & Hla & Hn).
  - assert (I : In (sans_Reposts rec) (map sans_Reposts (db_Posts s2))).
    { rewrite E, HP, map_app. apply in_or_app. left. apply in_or_app. right.
      left. reflexivity. }
    apply in_map_iff in I. destruct I as (x & Hx & Hin).
    apply Exists_exists. exists x. split; [exact Hin|].
    change (md_OrderNum (body (sans_Reposts x)) = None). rewrite Hx. exact Ho.
  - exists la. unfold posts_find_one_sorted. cbn [fst]. rewrite Hla. split; [reflexivity | exact Hn].
Qed.

Lemma detect_anchors_later_runs_witness :
  exists s1,
    detect (Demo.analyzer [] 5) 9%nat (sample_post "new" [[0]]) store_one_pixel
    = (Ok tt, s1)
    /\ exists la,
         fst (posts_find_one_sorted
                (snd (run (Demo.analyzer page_new_then_o1 5) 3 s1))) = Ok (Some la)
         /\ md_OrderNum (body la) = None.
Proof.
  eexists. split; [vm_compute; reflexivity|].
  eapply (detect_anchors_later_runs (Demo.analyzer [] 5) 9%nat (sample_post "new" [[0]])
            store_one_pixel).
  - vm_compute. reflexivity.
  - apply run_body_grows_extends. split.
    + vm_compute. repeat constructor; cbn; intuition discriminate.
    + vm_compute. repeat constructor.
Defined.
